(** * KBMOD search core: image stack, trajectory list, grid search, stamps

    A shallow embedding of the C++ sources under [src/kbmod/search] and the
    properties of the written specification that they decide.

    Conventions of the embedding.
    - [int] values are [Z]; where the C++ converts between signed and unsigned
      or narrows, the wrap-around is written out.
    - [float]/[double] values are rationals ([Q]): every finite float is a
      rational and comparisons of finite floats are comparisons of rationals.
      Rounding error of float arithmetic is not modelled; the results of
      operations that leave the finite floats (division by zero) are modelled
      explicitly where the code can reach them.
    - A C++ call has an [outcome]: it returns, it throws, or it runs into
      undefined behaviour (an out-of-bounds [operator[]], a signed
      overflow). *)

From Stdlib Require Import String.
From Stdlib Require Import ZArith QArith Qround Qabs List Bool Lia.
From Stdlib Require Import Permutation Sorting.Sorted.
From Stdlib Require Import Reals.
Import ListNotations.
Open Scope Z_scope.

(** ** Outcomes of C++ calls *)

Inductive exn : Type :=
| out_of_range (what : string)
| runtime_error (what : string)
| length_error (what : string).

Inductive outcome (A : Type) : Type :=
| Returns (a : A)
| Throws (e : exn)
| Undefined.

Arguments Returns {A} a.
Arguments Throws {A} e.
Arguments Undefined {A}.

Definition raises {A : Type} (o : outcome A) : Prop :=
  exists e, o = Throws e.

Definition bind {A B : Type} (o : outcome A) (k : A -> outcome B) : outcome B :=
  match o with
  | Returns a => k a
  | Throws e => Throws e
  | Undefined => Undefined
  end.

Notation "x <- c1 ;; c2" := (bind c1 (fun x => c2))
  (at level 61, c1 at next level, right associativity).

(** ** Float and integer conversions *)

(** [int] is 32 bits wide, [short] 16. *)
Definition INT_MIN : Z := - 2 ^ 31.
Definition INT_MAX : Z := 2 ^ 31 - 1.

Definition in_int (z : Z) : bool := (INT_MIN <=? z) && (z <=? INT_MAX).

Definition in_short (z : Z) : bool := (- 2 ^ 15 <=? z) && (z <? 2 ^ 15).

(** The integer part of a float, rounding toward zero. *)
Definition truncate (f : Q) : Z := Z.quot (Qnum f) (Zpos (Qden f)).

(** [static_cast<int>(f)] and [int(f)]: truncation toward zero when the
    integer part fits an [int].  Outside that range the conversion is
    undefined in C++; the x86 conversion instructions that the builds of
    these sources use give the "integer indefinite" value [INT_MIN] there,
    and that is the value modelled. *)
Definition static_cast_int (f : Q) : Z :=
  let z := truncate f in
  if in_int z then z else INT_MIN.

(** Rational comparison as decided by the float comparison operators. *)
Definition Qltb (a b : Q) : bool := negb (Qle_bool b a).
Definition Qgeb (a b : Q) : bool := Qle_bool b a.

(** [v[index]] as an rvalue: undefined behaviour outside the vector. *)
Definition vector_at {A : Type} (v : list A) (index : Z) : outcome A :=
  if index <? 0 then Undefined
  else match nth_error v (Z.to_nat index) with
       | Some a => Returns a
       | None => Undefined
       end.

(** A loop that runs [f] on each element in turn and stops at the first
    exception. *)
Fixpoint mapM {A B : Type} (f : A -> outcome B) (l : list A)
    : outcome (list B) :=
  match l with
  | [] => Returns []
  | a :: tl => b <- f a ;; bs <- mapM f tl ;; Returns (b :: bs)
  end.

(** [v[i] = x] on a vector, within its bounds. *)
Fixpoint set_at {A : Type} (l : list A) (i : nat) (x : A) : list A :=
  match l, i with
  | [], _ => []
  | _ :: tl, O => x :: tl
  | y :: tl, S j => y :: set_at tl j x
  end.

(** The sentinel for invalid pixels. *)
Definition NO_DATA : Q := (-999999 # 100)%Q.

(** ** Images *)

(** A [RawImage]: dimensions and the pixels in the order of [reshaped()]. *)
Record RawImage : Type := mkRawImage {
  width : nat;
  height : nat;
  pixels : list Q
}.

(** [RawImage(w, h)] followed by [set_all(v)], and [RawImage(w, h, v)]. *)
Definition RawImage_fill (w h : nat) (v : Q) : RawImage :=
  mkRawImage w h (repeat v (w * h)).

Definition raw_wf (img : RawImage) : Prop :=
  length (pixels img) = (width img * height img)%nat.

(** A [LayeredImage]: three layers, an observation time. *)
Record LayeredImage : Type := mkLayeredImage {
  science : RawImage;
  variance : RawImage;
  mask : RawImage;
  obstime : Q
}.

(** Modelled from the spec: [LayeredImage::get_width], [get_height] and
    [get_npixels] (layered_image.cpp is not part of the sources); the three
    layers share W and H, and the number of pixels is W*H. *)
Definition li_get_width (img : LayeredImage) : nat := width (science img).
Definition li_get_height (img : LayeredImage) : nat := height (science img).
Definition li_get_npixels (img : LayeredImage) : nat :=
  (li_get_width img * li_get_height img)%nat.

(** ** image_stack.cpp *)

(** The constructor (line 5), the accessors (lines 7-20),
    [build_zeroed_times] (lines 22-31) and [make_global_mask] (lines 37-62);
    the size getters are those of ImageStack.h, which read the first
    image. *)
Module ImageStack.

Record t : Type := mk { images : list LayeredImage }.

(** [ImageStack::ImageStack(const std::vector<LayeredImage>& imgs)]. *)
Definition make (imgs : list LayeredImage) : outcome t :=
  Returns (mk imgs).

Definition img_count (s : t) : nat := length (images s).

Definition get_width (s : t) : nat :=
  match images s with img :: _ => li_get_width img | [] => 0%nat end.

Definition get_height (s : t) : nat :=
  match images s with img :: _ => li_get_height img | [] => 0%nat end.

Definition get_npixels (s : t) : nat :=
  match images s with img :: _ => li_get_npixels img | [] => 0%nat end.

(** [images[index]]. *)
Definition at_index (s : t) (index : Z) : outcome LayeredImage :=
  vector_at (images s) index.

(** The guard shared by the three accessors,
    [index < 0 || index > images.size()].  The second test is evaluated only
    for a non-negative [index], which the conversion to [size_t] leaves
    unchanged. *)
Definition index_guard (s : t) (index : Z) : bool :=
  (index <? 0) || (index >? Z.of_nat (length (images s))).

Definition oob : exn := out_of_range "ImageStack index out of bounds.".

Definition get_single_image (s : t) (index : Z) : outcome LayeredImage :=
  if index_guard s index then Throws oob
  else at_index s index.

Definition get_obstime (s : t) (index : Z) : outcome Q :=
  if index_guard s index then Throws oob
  else img <- at_index s index ;; Returns (obstime img).

Definition get_zeroed_time (s : t) (index : Z) : outcome Q :=
  if index_guard s index then Throws oob
  else img <- at_index s index ;;
       img0 <- at_index s 0 ;;
       Returns (obstime img - obstime img0)%Q.

Definition build_zeroed_times (s : t) : list Q :=
  match images s with
  | [] => []
  | img0 :: _ => map (fun i => (obstime i - obstime img0)%Q) (images s)
  end.

(** The invariant of the specification: all images share W and H. *)
Definition same_size (s : t) : Prop :=
  forall a b, In a (images s) -> In b (images s) ->
    li_get_width a = li_get_width b /\ li_get_height a = li_get_height b.

Definition same_sizeb (s : t) : bool :=
  forallb (fun a =>
    forallb (fun b => Nat.eqb (li_get_width a) (li_get_width b)
                      && Nat.eqb (li_get_height a) (li_get_height b))
            (images s)) (images s).

(** *** make_global_mask *)

(** [counts[pixel]++]. *)
Definition incr_at (counts : list Z) (pixel : nat) : list Z :=
  set_at counts pixel (nth pixel counts 0 + 1).

Definition has_flags (flags : Z) (v : Q) : bool :=
  negb (Z.land flags (static_cast_int v) =? 0).

(** The inner loop over the pixels of one mask. *)
Definition count_image (flags : Z) (npixels : nat) (imgMask : list Q)
    (counts : list Z) : list Z :=
  fold_left
    (fun cnt pixel =>
       if has_flags flags (nth pixel imgMask 0%Q) then incr_at cnt pixel else cnt)
    (seq 0 npixels) counts.

(** The outer loop over the images. *)
Definition count_masks (flags : Z) (npixels : nat) (imgs : list LayeredImage)
    : list Z :=
  fold_left (fun cnt img => count_image flags npixels (pixels (mask img)) cnt)
    imgs (repeat 0 npixels).

(** The final loop, [global_m[p] = counts[p] < threshold ? 0.0 : 1.0], over
    an image that [set_all(0.0)] has filled. *)
Definition threshold_pixels (threshold : Z) (npixels : nat) (counts : list Z)
    (global_m : list Q) : list Q :=
  fold_left
    (fun gm p =>
       set_at gm p (if nth p counts 0 <? threshold then 0%Q else 1%Q))
    (seq 0 npixels) global_m.

(** Every mask is read at the indices [0 .. npixels-1]; a shorter mask is an
    out-of-bounds read. *)
Definition masks_in_bounds (s : t) : bool :=
  forallb (fun img => Nat.leb (get_npixels s) (length (pixels (mask img))))
    (images s).

Definition make_global_mask (s : t) (flags threshold : Z) : outcome RawImage :=
  let npixels := get_npixels s in
  let global_mask := RawImage_fill (get_width s) (get_height s) 0%Q in
  if masks_in_bounds s then
    let counts := count_masks flags npixels (images s) in
    Returns (mkRawImage (width global_mask) (height global_mask)
               (threshold_pixels threshold npixels counts (pixels global_mask)))
  else Undefined.

(** What one mask adds to the count of pixel [p]. *)
Definition flag_bit (flags : Z) (imgMask : list Q) (p : nat) : Z :=
  if has_flags flags (nth p imgMask 0%Q) then 1 else 0.

(** The masks of a stack that keeps the size invariant: each has the
    stack's number of pixels. *)
Definition masks_well_formed (s : t) : Prop :=
  forall img, In img (images s) ->
    length (pixels (mask img)) = get_npixels s.

(** What the loops add up for pixel [p]: one for each image whose mask
    passes the test of the inner loop. *)
Definition masked_count (s : t) (flags : Z) (p : nat) : Z :=
  Z.of_nat (length (filter
    (fun img => has_flags flags (nth p (pixels (mask img)) 0%Q)) (images s))).

(** The count in the words of the specification.  A mask pixel holds an
    integer of bit flags stored as a float; [mask_at] is that integer, and
    the count of pixel [p] is the number of images whose mask at [p] has a
    non-zero bitwise AND with [flags]. *)
Definition mask_at (img : LayeredImage) (p : nat) : Z :=
  Qfloor (nth p (pixels (mask img)) 0%Q).

Definition flagged (flags : Z) (img : LayeredImage) (p : nat) : bool :=
  negb (Z.land (mask_at img p) flags =? 0).

Definition flagged_count (s : t) (flags : Z) (p : nat) : Z :=
  Z.of_nat (length (filter (fun img => flagged flags img p) (images s))).

(** Every mask pixel of the stack holds an integer, and one that an [int]
    can hold. *)
Definition integer_masks (s : t) : Prop :=
  forall img, In img (images s) ->
  forall p, (p < get_npixels s)%nat ->
    (inject_Z (mask_at img p) == nth p (pixels (mask img)) 0)%Q
    /\ in_int (mask_at img p) = true.

(** The layers of every image share its size and hold W*H pixels. *)
Definition layers_well_formed (s : t) : Prop :=
  forall img, In img (images s) ->
    raw_wf (mask img)
    /\ width (mask img) = width (science img)
    /\ height (mask img) = height (science img).

End ImageStack.

(** ** Trajectories (common.h) *)

(** A trajectory, with the float type as a parameter: the grid search fills
    velocities with values of [cos] and [sin].  [x], [y] and [obs_count] are
    16-bit integers, the other fields floats.  The older sources name the
    velocities [x_vel] and [y_vel]. *)
Module Trajectory.

Record t (F : Type) : Type := mk {
  x : Z;
  y : Z;
  vx : F;
  vy : F;
  lh : F;
  flux : F;
  obs_count : Z
}.

Arguments mk {F}.
Arguments x {F}.
Arguments y {F}.
Arguments vx {F}.
Arguments vy {F}.
Arguments lh {F}.
Arguments flux {F}.
Arguments obs_count {F}.

(** A value-initialised trajectory. *)
Definition zero {F : Type} (fzero : F) : t F := mk 0 0 fzero fzero fzero fzero 0.

End Trajectory.

Definition trajectory : Type := Trajectory.t Q.

(** ** trajectory_list.h *)

(** The three inline accessors of [TrajectoryList] (lines 29-44), as
    functions from the list before the call to the outcome and the list
    after it. *)
Module TrajectoryList.

Record t : Type := mk {
  max_size : Z;
  data_on_gpu : bool;
  cpu_list : list trajectory
}.

Definition index_error : exn := runtime_error "Index out of bounds.".
Definition gpu_error : exn := runtime_error "Data on GPU".

(** Each operation returns its outcome and the list after the call. *)
Definition get_trajectory (l : t) (index : Z) : outcome trajectory * t :=
  if (index <? 0) || (index >? max_size l) then (Throws index_error, l)
  else if data_on_gpu l then (Throws gpu_error, l)
  else (vector_at (cpu_list l) index, l).

Definition set_trajectory (l : t) (index : Z) (new_value : trajectory)
    : outcome unit * t :=
  if (index <? 0) || (index >? max_size l) then (Throws index_error, l)
  else if data_on_gpu l then (Throws gpu_error, l)
  else if (Z.to_nat index <? length (cpu_list l))%nat then
    (Returns tt,
     mk (max_size l) (data_on_gpu l)
        (set_at (cpu_list l) (Z.to_nat index) new_value))
  else (Undefined, l).

Definition get_list (l : t) : outcome (list trajectory) * t :=
  if data_on_gpu l then (Throws gpu_error, l)
  else (Returns (cpu_list l), l).

End TrajectoryList.

(** ** KBMOSearch.cpp *)

(** [sortResults] (lines 563-566), [get_results] (lines 582-588),
    [get_trajectory_position] and [createCurves] (lines 481-535) and
    [createSearchList] (lines 224-246). *)
Module KBMOSearch.

(** *** sortResults *)

(** The comparator of [sortResults],
    [[](trajectory a, trajectory b) { return b.lh < a.lh; }]. *)
Definition lh_greater (a b : trajectory) : bool :=
  Qltb (Trajectory.lh b) (Trajectory.lh a).

(** [std::sort] (which [__gnu_parallel::sort] runs on short ranges and in
    sequential builds) promises a permutation of the range that the
    comparator orders, and nothing about elements the comparator does not
    separate.  It is modelled by the insertion sort that libstdc++ runs on
    ranges of at most 16 elements: each element in turn moves left past the
    elements it compares before, that is, for a strict weak order, to just
    before the first element of the sorted prefix that it compares
    before. *)
Section Sort.
Context {A : Type} (comp : A -> A -> bool).

Fixpoint linear_insert (val : A) (sorted : list A) : list A :=
  match sorted with
  | [] => [val]
  | e :: tl => if comp val e then val :: e :: tl
               else e :: linear_insert val tl
  end.

Definition insertion_sort (l : list A) : list A :=
  fold_left (fun sorted val => linear_insert val sorted) l [].

End Sort.

Definition sortResults (results : list trajectory) : list trajectory :=
  insertion_sort lh_greater results.

(** The order of the specification on two results: [lh] descending, then
    [obs_count] descending, then [y], [x], [vx], [vy] ascending. *)
Definition Qcmp3 (a b : Q) : comparison := (a ?= b)%Q.

Definition lex (c1 c2 : comparison) : comparison :=
  match c1 with Eq => c2 | _ => c1 end.

Definition tie_break_compare (a b : trajectory) : comparison :=
  lex (Qcmp3 (Trajectory.lh b) (Trajectory.lh a))
 (lex (Trajectory.obs_count b ?= Trajectory.obs_count a)
 (lex (Trajectory.y a ?= Trajectory.y b)
 (lex (Trajectory.x a ?= Trajectory.x b)
 (lex (Qcmp3 (Trajectory.vx a) (Trajectory.vx b))
      (Qcmp3 (Trajectory.vy a) (Trajectory.vy b)))))).

Definition tie_break_le (a b : trajectory) : Prop :=
  tie_break_compare a b <> Gt.

(** Descending likelihood alone. *)
Definition lh_ge (a b : trajectory) : Prop :=
  (Trajectory.lh b <= Trajectory.lh a)%Q.

(** *** get_results *)

(** Conversion of an [int] to [size_t], and of a [size_t] to [int]. *)
Definition to_size_t (z : Z) : Z := z mod 2 ^ 64.
Definition to_int (z : Z) : Z := (z + 2 ^ 31) mod 2 ^ 32 - 2 ^ 31.

(** [std::vector<T>(v.begin() + first, v.begin() + last)].  The constructor
    takes the distance [last - first] as the [size_t] number of elements
    before it reads any: a reversed range gives a distance beyond
    [max_size()] and the constructor throws [std::length_error].  A range
    in order that leaves the vector is read out of bounds. *)
Definition max_size_error : exn :=
  length_error "cannot create std::vector larger than max_size()".

Definition vector_range {A : Type} (v : list A) (first last : Z)
    : outcome (list A) :=
  if last <? first then Throws max_size_error
  else if (0 <=? first) && (last <=? Z.of_nat (length v)) then
    Returns (firstn (Z.to_nat (last - first)) (skipn (Z.to_nat first) v))
  else Undefined.

Definition start_error : exn := runtime_error "start must be 0 or greater".

(** [start + count] in the test is an [int] sum (overflow is undefined); the
    comparison with [results.size()] and the subtraction are done in
    [size_t].  The iterators of the returned range are [begin + start] and
    [begin + start + count]. *)
Definition get_results (results : list trajectory) (start count : Z)
    : outcome (list trajectory) :=
  let size := Z.of_nat (length results) in
  if negb (in_int (start + count)) then Undefined
  else
    let count :=
      if to_size_t (start + count) >=? size
      then to_int (to_size_t (size - to_size_t start))
      else count in
    if start <? 0 then Throws start_error
    else vector_range results start (start + count).

(** *** createCurves *)

Record BaryCorrection : Type := mkBaryCorrection {
  dx : Q; dxdx : Q; dxdy : Q;
  dy : Q; dydx : Q; dydy : Q
}.

(** The part of the search object that [createCurves] reads:
    [stack.get_times()], [use_corr] and [bary_corrs]. *)
Record t : Type := mk {
  times : list Q;
  use_corr : bool;
  bary_corrs : list BaryCorrection
}.

Definition no_corr : BaryCorrection := mkBaryCorrection 0 0 0 0 0 0.

(** Modelled from the spec: [RawImage::get_pixel] (raw_image.cpp is not part
    of the sources); a query outside the image gives [NO_DATA].  These older
    sources keep the pixels row by row. *)
Definition get_pixel (img : RawImage) (x y : Z) : Q :=
  if (0 <=? x) && (x <? Z.of_nat (width img))
     && (0 <=? y) && (y <? Z.of_nat (height img))
  then nth (Z.to_nat (y * Z.of_nat (width img) + x)) (pixels img) NO_DATA
  else NO_DATA.

(** [get_trajectory_position]: a [PixelPos] of floats. *)
Definition get_trajectory_position (s : t) (trj : trajectory) (i : nat)
    : Q * Q :=
  let time := nth i (times s) 0%Q in
  let tx := inject_Z (Trajectory.x trj) in
  let ty := inject_Z (Trajectory.y trj) in
  if use_corr s then
    let bc := nth i (bary_corrs s) no_corr in
    (tx + time * Trajectory.vx trj + dx bc + tx * dxdx bc + ty * dxdy bc,
     ty + time * Trajectory.vy trj + dy bc + tx * dydx bc + ty * dydy bc)%Q
  else
    (tx + time * Trajectory.vx trj, ty + time * Trajectory.vy trj)%Q.

Definition half : Q := (1 # 2)%Q.

(** The pixel that [createCurves] passes to [get_pixel] for image [i]. *)
Definition curve_pixel (s : t) (trj : trajectory) (i : nat) : Z * Z :=
  if use_corr s then
    let pos := get_trajectory_position s trj i in
    (static_cast_int (fst pos + half), static_cast_int (snd pos + half))
  else
    let time := nth i (times s) 0%Q in
    (Trajectory.x trj + static_cast_int (time * Trajectory.vx trj + half),
     Trajectory.y trj + static_cast_int (time * Trajectory.vy trj + half)).

(** [times[i]] and [bary_corrs[i]] are read for every image. *)
Definition createCurves (s : t) (trj : trajectory) (imgs : list RawImage)
    : outcome (list Q) :=
  if (length (times s) <? length imgs)%nat
     || (use_corr s && (length (bary_corrs s) <? length imgs)%nat)
  then Undefined
  else
    Returns (map (fun i =>
                    let p := curve_pixel s trj i in
                    let pix_val :=
                      get_pixel (nth i imgs (mkRawImage 0 0 [])) (fst p) (snd p) in
                    if Qeq_bool pix_val NO_DATA then 0%Q else pix_val)
                 (seq 0 (length imgs))).

(** Round to nearest, as the specification words the predicted position;
    halves go up. *)
Definition round (q : Q) : Z := Qfloor (q + half).

(** A displacement, in pixels, up to which [int(d + 0.5)] and its sum with
    a [short] coordinate stay inside [int]. *)
Definition max_displacement : Z := 2 ^ 30.

Definition predicted_pixel (trj : trajectory) (tau : Q) : Z * Z :=
  (round (inject_Z (Trajectory.x trj) + Trajectory.vx trj * tau),
   round (inject_Z (Trajectory.y trj) + Trajectory.vy trj * tau)).

(** *** filter_results, filter_resultsLH *)

(** [results.erase(std::remove_if(..., pred), results.end())]: the elements
    that satisfy [pred] go, the others keep their order. *)
Definition erase_remove_if {A : Type} (pred : A -> bool) (v : list A)
    : list A :=
  filter (fun a => negb (pred a)) v.

Definition filter_results (results : list trajectory) (min_observations : Z)
    : list trajectory :=
  erase_remove_if (fun t => Trajectory.obs_count t <? min_observations)
    results.

Definition filter_resultsLH (results : list trajectory) (min_lh : Q)
    : list trajectory :=
  erase_remove_if (fun t => Qltb (Trajectory.lh t) min_lh) results.

(** *** fillPsiAndphi_vects *)

(** Modelled from the spec: [RawImage::get_npixels] (raw_image.cpp is not
    part of the sources), the number W*H of pixels. *)
Definition raw_get_npixels (img : RawImage) : nat :=
  (width img * height img)%nat.

(** The inner loop: [psi_vect->push_back(psi_ref[p]);
    phi_vect->push_back(phi_ref[p]);] for [p] below [num_pixels]. *)
Definition push_pixels (num_pixels : nat) (psi_ref phi_ref : list Q)
    (vects : list Q * list Q) : outcome (list Q * list Q) :=
  fold_left
    (fun acc p =>
       vs <- acc ;;
       psi <- vector_at psi_ref (Z.of_nat p) ;;
       phi <- vector_at phi_ref (Z.of_nat p) ;;
       Returns (fst vs ++ [psi], snd vs ++ [phi]))
    (seq 0 num_pixels) (Returns vects).

(** The outer loop over the images. *)
Definition push_images (num_pixels : nat) (psi_imgs phi_imgs : list RawImage)
    (n : nat) (vects : list Q * list Q) : outcome (list Q * list Q) :=
  fold_left
    (fun acc i =>
       vs <- acc ;;
       psi_img <- vector_at psi_imgs (Z.of_nat i) ;;
       phi_img <- vector_at phi_imgs (Z.of_nat i) ;;
       push_pixels num_pixels (pixels psi_img) (pixels phi_img) vs)
    (seq 0 n) (Returns vects).

(** The assertions of the function, in a build that keeps them. *)
Definition fill_asserts (psi_imgs phi_imgs : list RawImage) : bool :=
  let num_images := length psi_imgs in
  (0 <? num_images)%nat
  && (length phi_imgs =? num_images)%nat
  && match psi_imgs with
     | [] => false
     | img0 :: _ =>
         forallb (fun img => (raw_get_npixels img =? raw_get_npixels img0)%nat)
                 psi_imgs
         && forallb (fun img => (raw_get_npixels img =? raw_get_npixels img0)%nat)
                    phi_imgs
     end.

(** [fillPsiAndphi_vects]: [None] when an assertion fails (the program is
    aborted), otherwise the outcome with the two vectors. *)
Definition fillPsiAndphi_vects (psi_imgs phi_imgs : list RawImage)
    : option (outcome (list Q * list Q)) :=
  if fill_asserts psi_imgs phi_imgs then
    match psi_imgs with
    | [] => None
    | img0 :: _ =>
        Some (push_images (raw_get_npixels img0) psi_imgs phi_imgs
                (length psi_imgs) ([], []))
    end
  else None.

(** The first [num_pixels] pixels of each image, one image after the
    other. *)
Definition flat (num_pixels : nat) (imgs : list RawImage) : list Q :=
  concat (map (fun img => firstn num_pixels (pixels img)) imgs).

(** The images that the assertions and the loops accept: well formed, of
    [P] pixels each. *)
Definition all_of_size (P : nat) (imgs : list RawImage) : Prop :=
  Forall (fun img => raw_wf img /\ raw_get_npixels img = P) imgs.

(** *** computeImageScaling *)

Record scaleParameters : Type := mkScaleParameters {
  min_val : Q;
  max_val : Q;
  scale : Q
}.

Definition min_width : Q := (1 # 1000000)%Q.

(** [RawImage::compute_bounds] (raw_image.cpp, not part of the sources) is a
    parameter. *)
Section Scaling.
Variable compute_bounds : RawImage -> Q * Q.

(** The body of the loop. *)
Definition image_scaling (encoding_bytes : Z) (img : RawImage)
    : scaleParameters :=
  let bnds := compute_bounds img in
  let width0 := (snd bnds - fst bnds)%Q in
  let width := if Qltb width0 min_width then min_width else width0 in
  let scale :=
    if (encoding_bytes =? 1) || (encoding_bytes =? 2) then
      let num_values := Z.shiftl 1 (8 * encoding_bytes) - 1 in
      (width / inject_Z num_values)%Q
    else 1%Q in
  mkScaleParameters (fst bnds) (snd bnds) scale.

Definition computeImageScaling (vect : list RawImage) (encoding_bytes : Z)
    : list scaleParameters :=
  map (image_scaling encoding_bytes) vect.

(** The width that the scale divides: the bounds' width, or [1e-6] when
    that is smaller. *)
Definition scaling_width (img : RawImage) : Q :=
  let w := (snd (compute_bounds img) - fst (compute_bounds img))%Q in
  if Qltb w min_width then min_width else w.

End Scaling.

(** *** createSearchList *)

(** The float type and its operations are parameters: the function only
    combines them, and its shape is the same for machine floats and for
    real numbers. *)
Section GridSearch.
Context {F : Type}.
Variables (fadd fsub fmul fdiv : F -> F -> F).
Variables (fcos fsin : F -> F).
Variable float_of_int : Z -> F.
Variable fzero : F.

(** [std::vector<T>(n)] for an [int n]: a negative [n] converts to a size
    beyond [max_size()]. *)
Definition vector_new {A : Type} (n : Z) (a : A) : outcome (list A) :=
  if n <? 0
  then Throws (length_error "cannot create std::vector larger than max_size()")
  else Returns (repeat a (Z.to_nat n)).

(** [for (i = 0; i < steps; ++i) v[i] = lo + float(i) * stepsize;] *)
Definition fill_steps (steps : Z) (lo stepsize : F) (v : list F) : list F :=
  fold_left
    (fun v i => set_at v i (fadd lo (fmul (float_of_int (Z.of_nat i)) stepsize)))
    (seq 0 (Z.to_nat steps)) v.

Definition set_x_vel (trj : Trajectory.t F) (v : F) : Trajectory.t F :=
  Trajectory.mk (Trajectory.x trj) (Trajectory.y trj) v (Trajectory.vy trj)
    (Trajectory.lh trj) (Trajectory.flux trj) (Trajectory.obs_count trj).

Definition set_y_vel (trj : Trajectory.t F) (v : F) : Trajectory.t F :=
  Trajectory.mk (Trajectory.x trj) (Trajectory.y trj) (Trajectory.vx trj) v
    (Trajectory.lh trj) (Trajectory.flux trj) (Trajectory.obs_count trj).

(** The body of the inner loop: the two assignments to
    [search_list[a * velocity_steps + v]]. *)
Definition set_velocity (angles velocities : list F) (velocity_steps : nat)
    (search_list : list (Trajectory.t F)) (a v : nat)
    : list (Trajectory.t F) :=
  let k := (a * velocity_steps + v)%nat in
  let dflt := Trajectory.zero fzero in
  let sl1 :=
    set_at search_list k
      (set_x_vel (nth k search_list dflt)
         (fmul (fcos (nth a angles fzero)) (nth v velocities fzero))) in
  set_at sl1 k
    (set_y_vel (nth k sl1 dflt)
       (fmul (fsin (nth a angles fzero)) (nth v velocities fzero))).

(** What the two assignments make of an element. *)
Definition with_velocity (angles velocities : list F) (e : Trajectory.t F)
    (a v : nat) : Trajectory.t F :=
  set_y_vel
    (set_x_vel e (fmul (fcos (nth a angles fzero)) (nth v velocities fzero)))
    (fmul (fsin (nth a angles fzero)) (nth v velocities fzero)).

(** The loop over [v] for one angle, run for [m] rounds. *)
Definition inner_loop (angles velocities : list F) (velocity_steps : nat)
    (a m : nat) (sl : list (Trajectory.t F)) : list (Trajectory.t F) :=
  fold_left (fun sl v => set_velocity angles velocities velocity_steps sl a v)
    (seq 0 m) sl.

(** The loop over [a], run for [n] rounds. *)
Definition outer_loop (angles velocities : list F) (velocity_steps : nat)
    (n : nat) (sl : list (Trajectory.t F)) : list (Trajectory.t F) :=
  fold_left
    (fun sl a => inner_loop angles velocities velocity_steps a velocity_steps sl)
    (seq 0 n) sl.

Definition createSearchList (angle_steps velocity_steps : Z)
    (min_ang max_ang min_vel max_vel : F)
    : outcome (list (Trajectory.t F)) :=
  angles0 <- vector_new angle_steps fzero ;;
  let ang_stepsize := fdiv (fsub max_ang min_ang) (float_of_int angle_steps) in
  let angles := fill_steps angle_steps min_ang ang_stepsize angles0 in
  velocities0 <- vector_new velocity_steps fzero ;;
  let vel_stepsize := fdiv (fsub max_vel min_vel) (float_of_int velocity_steps) in
  let velocities := fill_steps velocity_steps min_vel vel_stepsize velocities0 in
  if negb (in_int (angle_steps * velocity_steps)) then Undefined
  else
    let trajCount := angle_steps * velocity_steps in
    search_list0 <- vector_new trajCount (Trajectory.zero fzero) ;;
    Returns
      (outer_loop angles velocities (Z.to_nat velocity_steps)
         (Z.to_nat angle_steps) search_list0).

(** The grid of the specification. *)
Definition grid_angle (angle_steps : Z) (min_ang max_ang : F) (a : Z) : F :=
  fadd min_ang
    (fmul (float_of_int a)
       (fdiv (fsub max_ang min_ang) (float_of_int angle_steps))).

Definition grid_velocity (velocity_steps : Z) (min_vel max_vel : F) (b : Z)
    : F :=
  fadd min_vel
    (fmul (float_of_int b)
       (fdiv (fsub max_vel min_vel) (float_of_int velocity_steps))).

(** The grid that [createSearchList] leaves in the search list. *)
Definition is_grid (angle_steps velocity_steps : Z)
    (min_ang max_ang min_vel max_vel : F)
    (search_list : list (Trajectory.t F)) : Prop :=
  Z.of_nat (length search_list) = angle_steps * velocity_steps
  /\ forall a b, 0 <= a < angle_steps -> 0 <= b < velocity_steps ->
       let trj := nth (Z.to_nat (a * velocity_steps + b)) search_list
                      (Trajectory.zero fzero) in
       let alpha :=
         grid_angle angle_steps min_ang max_ang a in
       let v :=
         grid_velocity velocity_steps min_vel max_vel b in
       Trajectory.vx trj = fmul (fcos alpha) v
       /\ Trajectory.vy trj = fmul (fsin alpha) v.

End GridSearch.

End KBMOSearch.

(** ** stamp_creator.cpp *)

(** [create_stamps] (lines 13-32), [get_coadded_stamps] (lines 63-76),
    [get_coadded_stamps_cpu] (lines 78-113) and [filter_stamp]
    (lines 115-153). *)
Module StampCreator.

Inductive StampType : Type :=
| STAMP_SUM
| STAMP_MEAN
| STAMP_MEDIAN
| STAMP_other (value : Z).   (* a value outside the enumeration *)

Record StampParameters : Type := mkStampParameters {
  radius : Z;
  stamp_type : StampType;
  do_filtering : bool;
  peak_offset_x : Q;
  peak_offset_y : Q;
  center_thresh : Q;
  m01_limit : Q;
  m10_limit : Q;
  m11_limit : Q;
  m02_limit : Q;
  m20_limit : Q
}.

(** [Index] (geom.h, not part of the sources): row [i], column [j]. *)
Record Index : Type := mkIndex { i : Z; j : Z }.

Record ImageMoments : Type := mkImageMoments {
  m00 : Q; m01 : Q; m10 : Q; m11 : Q; m02 : Q; m20 : Q
}.

(** The functions of raw_image.cpp and common.h that stamp_creator.cpp calls
    and the sources do not contain, and the accelerator path
    [get_coadded_stamps_gpu] (radius check, CUDA kernel, filter loop), which
    only a build with CUDA has. *)
Class ImageLib : Type := {
  find_peak : RawImage -> bool -> Index;
  find_central_moments : RawImage -> ImageMoments;
  create_stamp : RawImage -> Q * Q -> Z -> bool -> RawImage;
  create_median_image : list RawImage -> RawImage;
  create_mean_image : list RawImage -> RawImage;
  create_summed_image : list RawImage -> RawImage;
  get_x_pos : trajectory -> Q -> Q;
  get_y_pos : trajectory -> Q -> Q;
  get_coadded_stamps_gpu :
    option (ImageStack.t -> list trajectory -> list (list bool) ->
            StampParameters -> outcome (list RawImage))
}.

(** The value of a float division, which leaves the finite floats when the
    divisor is zero. *)
Inductive fval : Type :=
| Finite (q : Q)
| PlusInf
| MinusInf
| NaN.

Definition float_div (a b : Q) : fval :=
  if Qeq_bool b 0 then
    if Qltb 0 a then PlusInf else if Qltb a 0 then MinusInf else NaN
  else Finite (a / b).

(** [v < c] for a finite [c]. *)
Definition fval_lt (v : fval) (c : Q) : bool :=
  match v with
  | Finite q => Qltb q c
  | MinusInf => true
  | PlusInf | NaN => false
  end.

(** [for (p = 0; p < stamp_ppi; ++p) pixel_sum += pixels[p];] *)
Definition sum_pixels (pixels : list Q) (stamp_ppi : Z) : outcome Q :=
  if Z.of_nat (length pixels) <? stamp_ppi then Undefined
  else Returns (fold_left Qplus (firstn (Z.to_nat stamp_ppi) pixels) 0%Q).

Section WithLib.
Context {lib : ImageLib}.

Definition use_index_error : exn :=
  runtime_error "Wrong size use_index passed into create_stamps()".

Definition create_stamps (stack : ImageStack.t) (trj : trajectory)
    (radius : Z) (keep_no_data : bool) (use_index : list bool)
    : outcome (list RawImage) :=
  if (0 <? length use_index)%nat
     && negb (length use_index =? ImageStack.img_count stack)%nat
  then Throws use_index_error
  else
    let use_all_stamps := (length use_index =? 0)%nat in
    stamps <-
      mapM (fun n =>
              if use_all_stamps || nth n use_index false then
                time <- ImageStack.get_zeroed_time stack (Z.of_nat n) ;;
                img <- ImageStack.get_single_image stack (Z.of_nat n) ;;
                Returns [create_stamp (science img)
                           (get_x_pos trj time, get_y_pos trj time)
                           radius keep_no_data]
              else Returns [])
           (seq 0 (ImageStack.img_count stack)) ;;
    Returns (concat stamps).

(** The three tests of [filter_stamp]. *)
Definition peak_off_centre (idx : Index) (params : StampParameters) : bool :=
  Qgeb (inject_Z (Z.abs (i idx - radius params))) (peak_offset_x params)
  || Qgeb (inject_Z (Z.abs (j idx - radius params))) (peak_offset_y params).

Definition low_centre_flux (img : RawImage) (idx : Index)
    (params : StampParameters) : outcome bool :=
  let stamp_width := 2 * radius params + 1 in
  let stamp_ppi := stamp_width * stamp_width in
  center_val <- vector_at (pixels img) (j idx * stamp_width + i idx) ;;
  pixel_sum <- sum_pixels (pixels img) stamp_ppi ;;
  Returns (fval_lt (float_div center_val pixel_sum) (center_thresh params)).

Definition moments_over_limit (moments : ImageMoments)
    (params : StampParameters) : bool :=
  Qgeb (Qabs (m01 moments)) (m01_limit params)
  || Qgeb (Qabs (m10 moments)) (m10_limit params)
  || Qgeb (Qabs (m11 moments)) (m11_limit params)
  || Qgeb (m02 moments) (m02_limit params)
  || Qgeb (m20 moments) (m20_limit params).

Definition filter_stamp (img : RawImage) (params : StampParameters)
    : outcome bool :=
  let idx := find_peak img true in
  if peak_off_centre idx params then Returns true
  else
    low <- (if Qltb 0 (center_thresh params)
            then low_centre_flux img idx params
            else Returns false) ;;
    if low then Returns true
    else Returns (moments_over_limit (find_central_moments img) params).

Definition coadd_type_error : exn :=
  runtime_error "Invalid stamp coadd type.".

Definition coadd (stamp_type : StampType) (stamps : list RawImage)
    : outcome RawImage :=
  match stamp_type with
  | STAMP_MEDIAN => Returns (create_median_image stamps)
  | STAMP_MEAN => Returns (create_mean_image stamps)
  | STAMP_SUM => Returns (create_summed_image stamps)
  | STAMP_other _ => Throws coadd_type_error
  end.

(** What a rejected stamp is replaced with: [RawImage(1, 1, NO_DATA)]. *)
Definition no_data_stamp : RawImage := RawImage_fill 1 1 NO_DATA.

(** One round of the loop of [get_coadded_stamps_cpu]. *)
Definition coadd_one (stack : ImageStack.t) (t_array : list trajectory)
    (use_index_vect : list (list bool)) (params : StampParameters) (n : nat)
    : outcome RawImage :=
  trj <- vector_at t_array (Z.of_nat n) ;;
  use_index <- vector_at use_index_vect (Z.of_nat n) ;;
  stamps <- create_stamps stack trj (radius params) true use_index ;;
  coadded <- coadd (stamp_type params) stamps ;;
  rejected <- (if do_filtering params then filter_stamp coadded params
               else Returns false) ;;
  Returns (if rejected then no_data_stamp else coadded).

Definition get_coadded_stamps_cpu (stack : ImageStack.t)
    (t_array : list trajectory) (use_index_vect : list (list bool))
    (params : StampParameters) : outcome (list RawImage) :=
  mapM (coadd_one stack t_array use_index_vect params)
       (seq 0 (length t_array)).

Inductive log_level : Type := Info | Warning.

Definition gpu_info : log_level * string :=
  (Info, "Performing co-adds on the GPU."%string).
Definition no_gpu_warning : log_level * string :=
  (Warning, "GPU is not enabled. Performing co-adds on the CPU."%string).

(** The build has the accelerator. *)
Definition HAVE_CUDA : bool :=
  match get_coadded_stamps_gpu with Some _ => true | None => false end.

(** [get_coadded_stamps]: the log lines written and the outcome.  The
    preprocessor keeps one of the two branches under [use_gpu]. *)
Definition get_coadded_stamps (stack : ImageStack.t)
    (t_array : list trajectory) (use_index_vect : list (list bool))
    (params : StampParameters) (use_gpu : bool)
    : list (log_level * string) * outcome (list RawImage) :=
  if use_gpu then
    match get_coadded_stamps_gpu with
    | Some gpu => ([gpu_info], gpu stack t_array use_index_vect params)
    | None =>
        ([no_gpu_warning],
         get_coadded_stamps_cpu stack t_array use_index_vect params)
    end
  else ([], get_coadded_stamps_cpu stack t_array use_index_vect params).

(** The number of flags set in [use_index]. *)
Definition count_true (use_index : list bool) : nat :=
  length (filter (fun b : bool => b) use_index).

(** The image [n] is used: [use_all_stamps || use_index[n]]. *)
Definition selected (use_index : list bool) (n : nat) : bool :=
  (length use_index =? 0)%nat || nth n use_index false.

(** The stamp cut from image [n] at the position of the trajectory. *)
Definition stamp_of (stack : ImageStack.t) (trj : trajectory) (radius : Z)
    (keep_no_data : bool) (n : nat) : RawImage :=
  let img := nth n (ImageStack.images stack) (mkLayeredImage
               (mkRawImage 0 0 []) (mkRawImage 0 0 []) (mkRawImage 0 0 []) 0) in
  let img0 := nth 0 (ImageStack.images stack) img in
  let time := (obstime img - obstime img0)%Q in
  create_stamp (science img) (get_x_pos trj time, get_y_pos trj time)
    radius keep_no_data.

(** [get_stamps] and the three coadds of one trajectory. *)
Definition get_stamps (stack : ImageStack.t) (trj : trajectory) (radius : Z)
    : outcome (list RawImage) :=
  create_stamps stack trj radius false [].

Definition get_median_stamp (stack : ImageStack.t) (trj : trajectory)
    (radius : Z) (use_index : list bool) : outcome RawImage :=
  stamps <- create_stamps stack trj radius true use_index ;;
  Returns (create_median_image stamps).

Definition get_mean_stamp (stack : ImageStack.t) (trj : trajectory)
    (radius : Z) (use_index : list bool) : outcome RawImage :=
  stamps <- create_stamps stack trj radius true use_index ;;
  Returns (create_mean_image stamps).

Definition get_summed_stamp (stack : ImageStack.t) (trj : trajectory)
    (radius : Z) (use_index : list bool) : outcome RawImage :=
  stamps <- create_stamps stack trj radius false use_index ;;
  Returns (create_summed_image stamps).

(** The rejection rule as the specification words it: the offset of the
    peak *exceeds* the allowed offset. *)
Definition peak_offset_exceeded (idx : Index) (params : StampParameters)
    : Prop :=
  (peak_offset_x params < inject_Z (Z.abs (i idx - radius params)))%Q
  \/ (peak_offset_y params < inject_Z (Z.abs (j idx - radius params)))%Q.

(** The first test as the code has it: the offset reaches the allowed
    offset. *)
Definition peak_offset_reached (idx : Index) (params : StampParameters)
    : Prop :=
  (peak_offset_x params <= inject_Z (Z.abs (i idx - radius params)))%Q
  \/ (peak_offset_y params <= inject_Z (Z.abs (j idx - radius params)))%Q.

(** The peak value over the sum of all pixels is below [center_thresh]. *)
Definition centre_flux_low (img : RawImage) (idx : Index)
    (params : StampParameters) : Prop :=
  (0 < center_thresh params)%Q
  /\ exists center_val,
       vector_at (pixels img) (j idx * (2 * radius params + 1) + i idx)
       = Returns center_val
       /\ fval_lt (float_div center_val (fold_left Qplus (pixels img) 0%Q))
                  (center_thresh params) = true.

Definition moments_limit_reached (moments : ImageMoments)
    (params : StampParameters) : Prop :=
  (m01_limit params <= Qabs (m01 moments))%Q
  \/ (m10_limit params <= Qabs (m10 moments))%Q
  \/ (m11_limit params <= Qabs (m11 moments))%Q
  \/ (m02_limit params <= m02 moments)%Q
  \/ (m20_limit params <= m20 moments)%Q.

(** A stamp of the size that [params] asks for, whose peak is inside it. *)
Definition stamp_sized (img : RawImage) (params : StampParameters) : Prop :=
  let side := 2 * radius params + 1 in
  0 <= radius params
  /\ Z.of_nat (width img) = side
  /\ Z.of_nat (height img) = side
  /\ raw_wf img
  /\ 0 <= i (find_peak img true) < side
  /\ 0 <= j (find_peak img true) < side.

(** The rejection rule of [filter_stamp]. *)
Definition reject_condition (img : RawImage) (params : StampParameters)
    : Prop :=
  peak_offset_reached (find_peak img true) params
  \/ centre_flux_low img (find_peak img true) params
  \/ moments_limit_reached (find_central_moments img) params.

(** The rejection rule as the specification words it. *)
Definition specified_reject_condition (img : RawImage)
    (params : StampParameters) : Prop :=
  peak_offset_exceeded (find_peak img true) params
  \/ centre_flux_low img (find_peak img true) params
  \/ moments_limit_reached (find_central_moments img) params.

End WithLib.

End StampCreator.

(** ** The image library, from the specification *)

(** An instance of [ImageLib] for a build without the accelerator, used to
    run the stamp functions on concrete images. *)
Module SpecImages.
Import StampCreator.

Definition is_valid (v : Q) : bool := negb (Qeq_bool v NO_DATA).

(** Pixel (row, column) of an image kept in the order of [reshaped()],
    column after column; [NO_DATA] outside the image. *)
Definition pixel_at (img : RawImage) (row col : Z) : Q :=
  if (0 <=? row) && (row <? Z.of_nat (height img))
     && (0 <=? col) && (col <? Z.of_nat (width img))
  then nth (Z.to_nat (col * Z.of_nat (height img) + row)) (pixels img) NO_DATA
  else NO_DATA.

(** The index of the [p]-th pixel. *)
Definition index_of (img : RawImage) (p : nat) : Index :=
  mkIndex (Z.of_nat p mod Z.of_nat (height img))
          (Z.of_nat p / Z.of_nat (height img)).

Definition dist2 (img : RawImage) (idx : Index) : Z :=
  (i idx - Z.of_nat (height img) / 2) ^ 2
  + (j idx - Z.of_nat (width img) / 2) ^ 2.

(** Modelled from the spec: [RawImage::find_peak], the argmax over the valid
    pixels; among equal maxima the pixel farthest from the centre, then the
    first in (j, i) order. *)
Definition find_peak (img : RawImage) (furthest_from_center : bool) : Index :=
  let step (best : option (Index * Q)) (p : nat) :=
    let v := nth p (pixels img) NO_DATA in
    let idx := index_of img p in
    if is_valid v then
      match best with
      | None => Some (idx, v)
      | Some (bidx, bv) =>
          if Qltb bv v then Some (idx, v)
          else if Qeq_bool bv v && furthest_from_center
                  && (dist2 img bidx <? dist2 img idx)
               then Some (idx, v)
               else best
      end
    else best in
  match fold_left step (seq 0 (length (pixels img))) None with
  | Some (idx, _) => idx
  | None => mkIndex 0 0
  end.

(** Modelled from the spec: [RawImage::find_central_moments], the moments
    about the centre pixel with [NO_DATA] counted as 0. *)
Definition find_central_moments (img : RawImage) : ImageMoments :=
  let term (f : Z -> Z -> Z) (p : nat) : Q :=
    let v := nth p (pixels img) NO_DATA in
    let idx := index_of img p in
    let dx := j idx - Z.of_nat (width img) / 2 in
    let dy := i idx - Z.of_nat (height img) / 2 in
    (inject_Z (f dx dy) * (if is_valid v then v else 0))%Q in
  let total (f : Z -> Z -> Z) : Q :=
    fold_left (fun acc p => (acc + term f p)%Q)
              (seq 0 (length (pixels img))) 0%Q in
  mkImageMoments
    (total (fun _ _ => 1))
    (total (fun _ dy => dy))
    (total (fun dx _ => dx))
    (total (fun dx dy => dx * dy))
    (total (fun _ dy => dy * dy))
    (total (fun dx _ => dx * dx)).

(** Modelled from the spec: [RawImage::create_stamp], a square cutout of
    side [2r+1] around the centre; samples outside the image, and invalid
    ones, stay [NO_DATA] or become 0.0 as [keep_no_data] says. *)
Definition create_stamp (img : RawImage) (center : Q * Q) (radius : Z)
    (keep_no_data : bool) : RawImage :=
  let side := Z.to_nat (2 * radius + 1) in
  let cx := Qfloor (fst center) in
  let cy := Qfloor (snd center) in
  mkRawImage side side
    (map (fun p =>
            let row := Z.of_nat p mod Z.of_nat side in
            let col := Z.of_nat p / Z.of_nat side in
            let v := pixel_at img (cy - radius + row) (cx - radius + col) in
            if is_valid v then v else if keep_no_data then NO_DATA else 0%Q)
         (seq 0 (side * side))).

(** The valid values that the stamps hold at pixel [p]. *)
Definition valid_at (stamps : list RawImage) (p : nat) : list Q :=
  filter is_valid (map (fun s => nth p (pixels s) NO_DATA) stamps).

Definition per_pixel (f : list Q -> Q) (stamps : list RawImage) : RawImage :=
  match stamps with
  | [] => mkRawImage 0 0 []
  | s :: _ =>
      mkRawImage (width s) (height s)
        (map (fun p => f (valid_at stamps p)) (seq 0 (length (pixels s))))
  end.

Definition Qsum (l : list Q) : Q := fold_left Qplus l 0%Q.

(** Modelled from the spec: the sum coadd counts [NO_DATA] as 0. *)
Definition create_summed_image : list RawImage -> RawImage :=
  per_pixel Qsum.

(** Modelled from the spec: the mean coadd skips [NO_DATA]. *)
Definition create_mean_image : list RawImage -> RawImage :=
  per_pixel (fun l =>
    match l with
    | [] => NO_DATA
    | _ => (Qsum l / inject_Z (Z.of_nat (length l)))%Q
    end).

(** Modelled from the spec: the median coadd skips [NO_DATA]. *)
Definition create_median_image : list RawImage -> RawImage :=
  per_pixel (fun l =>
    let sorted := KBMOSearch.insertion_sort Qltb l in
    let n := length sorted in
    match n with
    | O => NO_DATA
    | _ =>
        if Nat.even n
        then ((nth (n / 2 - 1) sorted 0 + nth (n / 2) sorted 0) / 2)%Q
        else nth (n / 2) sorted 0%Q
    end).

(** Modelled from the spec: the predicted position at time [tau],
    [round(x + vx * tau)]. *)
Definition get_x_pos (trj : trajectory) (tau : Q) : Q :=
  inject_Z (KBMOSearch.round
              (inject_Z (Trajectory.x trj) + Trajectory.vx trj * tau)).

Definition get_y_pos (trj : trajectory) (tau : Q) : Q :=
  inject_Z (KBMOSearch.round
              (inject_Z (Trajectory.y trj) + Trajectory.vy trj * tau)).

#[export] Instance lib : ImageLib := {|
  StampCreator.find_peak := find_peak;
  StampCreator.find_central_moments := find_central_moments;
  StampCreator.create_stamp := create_stamp;
  StampCreator.create_median_image := create_median_image;
  StampCreator.create_mean_image := create_mean_image;
  StampCreator.create_summed_image := create_summed_image;
  StampCreator.get_x_pos := get_x_pos;
  StampCreator.get_y_pos := get_y_pos;
  StampCreator.get_coadded_stamps_gpu := None
|}.

End SpecImages.

(** ** The grid search over the real numbers *)

Module RealGrid.

(** [createSearchList] with the arithmetic of the reals for that of the
    floats. *)
Definition createSearchList_R
    : Z -> Z -> R -> R -> R -> R -> outcome (list (Trajectory.t R)) :=
  KBMOSearch.createSearchList Rplus Rminus Rmult Rdiv cos sin IZR 0%R.

End RealGrid.

(** ** Concrete inputs *)

Module Fixtures.

Definition blank (w h : nat) : RawImage := RawImage_fill w h 0%Q.

Definition blank_layered (w h : nat) (time : Q) : LayeredImage :=
  mkLayeredImage (blank w h) (blank w h) (blank w h) time.

(** A 1x1 image followed by a 2x2 image. *)
Definition mismatched : list LayeredImage :=
  [blank_layered 1 1 0%Q; blank_layered 2 2 1%Q].

(** Three 2x2 images; the flag 1 is set at pixel 1 in two masks and at
    pixel 2 in one, the flag 2 at pixel 3 in all three. *)
Definition with_mask (m : list Q) (time : Q) : LayeredImage :=
  mkLayeredImage (blank 2 2) (blank 2 2) (mkRawImage 2 2 m) time.

Definition masked_stack : ImageStack.t :=
  ImageStack.mk [with_mask [0; 1; 0; 2]%Q 0%Q;
                 with_mask [0; 3; 1; 2]%Q 1%Q;
                 with_mask [0; 0; 0; 2]%Q 2%Q].

(** A trajectory list of two entries whose data is on the accelerator. *)
Definition on_gpu_list : TrajectoryList.t :=
  TrajectoryList.mk 2 true
    [Trajectory.mk 1 1 0%Q 0%Q 0%Q 0%Q 0; Trajectory.mk 2 2 0%Q 0%Q 0%Q 0%Q 0].

(** Two results of equal likelihood; the second has more observations. *)
Definition tied_low : trajectory := Trajectory.mk 3 4 1%Q 0%Q 5%Q 1%Q 1.
Definition tied_high : trajectory := Trajectory.mk 3 4 1%Q 0%Q 5%Q 1%Q 2.
Definition best : trajectory := Trajectory.mk 0 0 0%Q 0%Q 9%Q 1%Q 1.

(** Trajectories that move 1.25 pixels to the left per unit of time. *)
Definition moving_left : trajectory :=
  Trajectory.mk 10 10 (-5 # 4)%Q 0%Q 0%Q 0%Q 0.

Definition leaving_left : trajectory :=
  Trajectory.mk 0 10 (-5 # 4)%Q 0%Q 0%Q 0%Q 0.

(** A 12x12 image, kept row by row, whose pixel (x, y) holds x. *)
Definition ramp : RawImage :=
  mkRawImage 12 12
    (map (fun p => inject_Z (Z.of_nat p mod 12)) (seq 0 144)).

Definition two_epochs : KBMOSearch.t := KBMOSearch.mk [0%Q; 1%Q] false [].

Definition two_epochs_corr : KBMOSearch.t :=
  KBMOSearch.mk [0%Q; 1%Q] true [KBMOSearch.no_corr; KBMOSearch.no_corr].

(** A 5x5 image, dark but for one pixel of value 1 at row 3, column 3: one
    pixel off the centre (2, 2) in each direction. *)
Definition bright_5x5 : RawImage :=
  mkRawImage 5 5 (set_at (repeat 0%Q 25) 18 1%Q).

Definition one_image : ImageStack.t :=
  ImageStack.mk [mkLayeredImage bright_5x5 (blank 5 5) (blank 5 5) 0%Q].

Definition at_centre : trajectory := Trajectory.mk 2 2 0%Q 0%Q 0%Q 0%Q 0.

(** Filtering with an allowed peak offset of [off] pixels, no test on the
    central flux, and moment limits of 100. *)
Definition sum_params (off : Q) : StampCreator.StampParameters :=
  StampCreator.mkStampParameters 2 StampCreator.STAMP_SUM true off off 0%Q
    100%Q 100%Q 100%Q 100%Q 100%Q.

(** A trajectory that moves 1.25 pixels to the right per unit of time. *)
Definition moving_right : trajectory :=
  Trajectory.mk 3 4 (5 # 4)%Q 0%Q 0%Q 0%Q 0.

(** A trajectory that leaves a 12-pixel wide image on the right in one unit
    of time. *)
Definition leaving_right : trajectory :=
  Trajectory.mk 11 10 (5 # 4)%Q 0%Q 0%Q 0%Q 0.

(** Two psi images and two phi images of 2x2 pixels. *)
Definition psi_pair : list RawImage :=
  [mkRawImage 2 2 [1; 2; 3; 4]%Q; mkRawImage 2 2 [5; 6; 7; 8]%Q].
Definition phi_pair : list RawImage :=
  [mkRawImage 2 2 [9; 10; 11; 12]%Q; mkRawImage 2 2 [13; 14; 15; 16]%Q].

(** The results above, sorted by likelihood. *)
Definition sorted_results : list trajectory := [best; tied_low; tied_high].

(** A trajectory list of two entries held by the host. *)
Definition on_cpu_list : TrajectoryList.t :=
  TrajectoryList.mk 2 false
    [Trajectory.mk 1 1 0%Q 0%Q 0%Q 0%Q 0; Trajectory.mk 2 2 0%Q 0%Q 0%Q 0%Q 0].

(** Mean coadds without filtering. *)
Definition mean_params : StampCreator.StampParameters :=
  StampCreator.mkStampParameters 2 StampCreator.STAMP_MEAN false 1%Q 1%Q 0%Q
    100%Q 100%Q 100%Q 100%Q 100%Q.

End Fixtures.

(** * Properties *)

(** ** Vector updates *)

Lemma length_set_at {A : Type} (l : list A) (i : nat) (x : A) :
  length (set_at l i x) = length l.
Proof.
  revert i; induction l as [|y l IH]; intros [|i]; simpl; auto.
Qed.

Lemma nth_set_at_same {A : Type} (l : list A) (i : nat) (x d : A) :
  (i < length l)%nat -> nth i (set_at l i x) d = x.
Proof.
  revert i; induction l as [|y l IH]; intros [|i] Hi; simpl in *;
    try lia; auto.
  apply IH; lia.
Qed.

Lemma nth_set_at_other {A : Type} (l : list A) (i j : nat) (x d : A) :
  i <> j -> nth j (set_at l i x) d = nth j l d.
Proof.
  revert i j; induction l as [|y l IH]; intros [|i] [|j] Hij; simpl;
    try congruence; auto.
Qed.

(** ** Comparisons, vector reads, loops *)

Lemma Qltb_true (a b : Q) : Qltb a b = true <-> (a < b)%Q.
Proof.
  unfold Qltb. rewrite negb_true_iff. split; intros H.
  - apply Qnot_le_lt. intros Hle. apply Qle_bool_iff in Hle. congruence.
  - destruct (Qle_bool b a) eqn:E; auto.
    apply Qle_bool_iff in E. exfalso. eapply Qlt_not_le; eauto.
Qed.

Lemma Qltb_false (a b : Q) : Qltb a b = false <-> (b <= a)%Q.
Proof.
  unfold Qltb. rewrite negb_false_iff. apply Qle_bool_iff.
Qed.

Lemma Qgeb_true (a b : Q) : Qgeb a b = true <-> (b <= a)%Q.
Proof. apply Qle_bool_iff. Qed.

Lemma in_int_bounds (z : Z) : in_int z = true <-> INT_MIN <= z <= INT_MAX.
Proof.
  unfold in_int. rewrite andb_true_iff, !Z.leb_le. tauto.
Qed.

(** Inside the range of [int] the conversion is the truncation. *)
Lemma static_cast_int_in_range (f : Q) :
  in_int (truncate f) = true -> static_cast_int f = truncate f.
Proof.
  intros H. unfold static_cast_int. cbv zeta. now rewrite H.
Qed.

(** The integer part of a float that holds an integer is that integer. *)
Lemma truncate_integer (f : Q) (m : Z) :
  (inject_Z m == f)%Q -> truncate f = m.
Proof.
  destruct f as [n d]. unfold Qeq, truncate. simpl. intros H.
  rewrite Z.mul_1_r in H. rewrite <- H. apply Z.quot_mul. discriminate.
Qed.

(** Truncation toward zero is the floor on a float that is not negative. *)
Lemma truncate_nonneg (q : Q) : (0 <= q)%Q -> truncate q = Qfloor q.
Proof.
  destruct q as [n d]. unfold Qle, truncate, Qfloor. simpl.
  intros H. apply Z.quot_div_nonneg; lia.
Qed.

Lemma vector_at_nat {A : Type} (v : list A) (n : nat) (a : A) :
  vector_at v (Z.of_nat n) = Returns a <-> nth_error v n = Some a.
Proof.
  unfold vector_at.
  assert ((Z.of_nat n <? 0) = false) as -> by (apply Z.ltb_ge; lia).
  rewrite Nat2Z.id. destruct (nth_error v n); split; congruence.
Qed.

Lemma vector_at_inside {A : Type} (v : list A) (index : Z) :
  0 <= index < Z.of_nat (length v) -> exists a, vector_at v index = Returns a.
Proof.
  intros [H0 H1]. unfold vector_at.
  assert ((index <? 0) = false) as -> by now apply Z.ltb_ge.
  destruct (nth_error v (Z.to_nat index)) eqn:E; eauto.
  apply nth_error_None in E. lia.
Qed.

(** A loop over [start .. start+m-1] that returns has run every round. *)
Lemma mapM_seq_returns {B : Type} (f : nat -> outcome B) (m start : nat)
    (rs : list B) :
  mapM f (seq start m) = Returns rs ->
  length rs = m
  /\ forall n r, nth_error rs n = Some r -> f (start + n)%nat = Returns r.
Proof.
  revert start rs. induction m as [|m IH]; intros start rs; simpl.
  - intros [= <-]. split; auto. intros [|n] r; discriminate.
  - destruct (f start) as [b| |] eqn:Ef; simpl; try discriminate.
    destruct (mapM f (seq (S start) m)) as [bs| |] eqn:Em; simpl;
      try discriminate.
    intros [= <-]. destruct (IH _ _ Em) as [Hlen Hnth].
    split; [simpl; congruence|].
    intros [|n] r; simpl.
    + intros [= <-]. now rewrite Nat.add_0_r.
    + intros Hn. rewrite Nat.add_succ_r. apply (Hnth n r Hn).
Qed.

(** A loop [for (i = 0; i < k; ++i) v[i] = f(i);]. *)
Lemma fold_set_at_seq {A : Type} (f : nat -> A) (k : nat) (l : list A)
    (d : A) :
  (k <= length l)%nat ->
  length (fold_left (fun v i => set_at v i (f i)) (seq 0 k) l) = length l
  /\ forall p,
       nth p (fold_left (fun v i => set_at v i (f i)) (seq 0 k) l) d
       = if (p <? k)%nat then f p else nth p l d.
Proof.
  induction k as [|k IH]; intros Hk.
  - simpl. split; auto.
  - rewrite seq_S, fold_left_app. simpl.
    destruct IH as [IHlen IHnth]; [lia|].
    split; [now rewrite length_set_at|].
    intros p. destruct (Nat.eq_dec p k) as [->|Hpk].
    + rewrite nth_set_at_same by lia.
      now assert ((k <? S k)%nat = true) as -> by (apply Nat.ltb_lt; lia).
    + rewrite nth_set_at_other by congruence. rewrite IHnth.
      destruct (Nat.ltb_spec p k), (Nat.ltb_spec p (S k)); auto; lia.
Qed.

(** ** Properties of the image stack *)

Module ImageStackFacts.
Import ImageStack.

(** *** The index guard of the accessors *)

Lemma index_guard_true (s : t) (i : Z) :
  index_guard s i = true <-> i < 0 \/ i > Z.of_nat (img_count s).
Proof.
  unfold index_guard, img_count.
  rewrite orb_true_iff, Z.ltb_lt, Z.gtb_gt. tauto.
Qed.

Lemma at_index_in_range (s : t) (i : Z) :
  0 <= i < Z.of_nat (img_count s) -> exists img, at_index s i = Returns img.
Proof.
  intros [H0 HN]. unfold at_index, vector_at, img_count in *.
  destruct (i <? 0) eqn:E; [apply Z.ltb_lt in E; lia|].
  destruct (nth_error (images s) (Z.to_nat i)) eqn:En; eauto.
  apply nth_error_None in En. lia.
Qed.

Lemma at_index_size (s : t) :
  at_index s (Z.of_nat (img_count s)) = Undefined.
Proof.
  unfold at_index, vector_at, img_count.
  destruct (Z.of_nat (length (images s)) <? 0) eqn:E; auto.
  rewrite Nat2Z.id.
  destruct (nth_error (images s) (length (images s))) eqn:En; auto.
  assert (nth_error (images s) (length (images s)) <> None) as Hn
    by congruence.
  apply nth_error_Some in Hn. lia.
Qed.

(** The accessors throw exactly for [i < 0] and [i > N]. *)
Lemma get_single_image_raises (s : t) (i : Z) :
  raises (get_single_image s i) <-> i < 0 \/ i > Z.of_nat (img_count s).
Proof.
  rewrite <- index_guard_true. unfold get_single_image, raises.
  destruct (index_guard s i); split; intros H; eauto; try discriminate.
  destruct H as [e He]. unfold at_index, vector_at in He.
  destruct (i <? 0); try discriminate.
  destruct (nth_error _ _); discriminate.
Qed.

Lemma get_single_image_in_range (s : t) (i : Z) :
  0 <= i < Z.of_nat (img_count s) ->
  exists img, get_single_image s i = Returns img.
Proof.
  intros H. unfold get_single_image.
  destruct (index_guard s i) eqn:G.
  - apply index_guard_true in G. lia.
  - now apply at_index_in_range.
Qed.

(** C6.  The accessors [get_single_image], [get_obstime] and
    [get_zeroed_time] should raise for every index outside [0, N).  At
    [i = N] the guard [index > images.size()] lets the call through: no
    exception is raised and [images[N]] is read past the end of the vector. *)
Theorem accessors_at_size_do_not_raise (s : t) :
  let N := Z.of_nat (img_count s) in
  get_single_image s N = Undefined
  /\ get_obstime s N = Undefined
  /\ get_zeroed_time s N = Undefined
  /\ ~ raises (get_single_image s N)
  /\ ~ raises (get_obstime s N)
  /\ ~ raises (get_zeroed_time s N).
Proof.
  intros N.
  assert (index_guard s N = false) as G.
  { destruct (index_guard s N) eqn:G; auto.
    apply index_guard_true in G. subst N. lia. }
  assert (get_single_image s N = Undefined) as H1.
  { unfold get_single_image. rewrite G. apply at_index_size. }
  assert (get_obstime s N = Undefined) as H2.
  { unfold get_obstime. rewrite G. subst N. now rewrite at_index_size. }
  assert (get_zeroed_time s N = Undefined) as H3.
  { unfold get_zeroed_time. rewrite G. subst N. now rewrite at_index_size. }
  repeat split; auto; intros [e He]; congruence.
Qed.

(** *** The constructor and the size invariant *)

Lemma same_sizeb_spec (s : t) : same_sizeb s = true <-> same_size s.
Proof.
  unfold same_sizeb, same_size. rewrite forallb_forall. split.
  - intros H a b Ha Hb. specialize (H a Ha).
    rewrite forallb_forall in H. specialize (H b Hb).
    apply andb_true_iff in H as [Hw Hh].
    now apply Nat.eqb_eq in Hw, Hh.
  - intros H a Ha. apply forallb_forall. intros b Hb.
    destruct (H a b Ha Hb) as [Hw Hh].
    now rewrite Hw, Hh, !Nat.eqb_refl.
Qed.

Lemma make_stores_any_list (imgs : list LayeredImage) :
  make imgs = Returns (mk imgs).
Proof. reflexivity. Qed.

(** C8.  Constructing a stack from images of different sizes should fail.
    The constructor copies the vector without looking at it: a 1x1 image
    followed by a 2x2 image gives a stack that breaks the size invariant. *)
Theorem make_accepts_mismatched_sizes :
  exists s, make Fixtures.mismatched = Returns s
            /\ images s = Fixtures.mismatched
            /\ ~ same_size s
            /\ get_width s = 1%nat
            /\ option_map li_get_width (nth_error (images s) 1) = Some 2%nat.
Proof.
  exists (mk Fixtures.mismatched). repeat split; try reflexivity.
  intros H. apply same_sizeb_spec in H. vm_compute in H. discriminate.
Qed.

(** *** make_global_mask *)

Lemma length_incr_at (counts : list Z) (p : nat) :
  length (incr_at counts p) = length counts.
Proof. apply length_set_at. Qed.

(** The inner loop adds the flag bit of every pixel below [k]. *)
Lemma count_image_spec (flags : Z) (imgMask : list Q) (counts : list Z)
    (k : nat) :
  (k <= length counts)%nat ->
  length (count_image flags k imgMask counts) = length counts
  /\ forall p,
       nth p (count_image flags k imgMask counts) 0
       = nth p counts 0 + (if (p <? k)%nat then flag_bit flags imgMask p else 0).
Proof.
  unfold count_image. induction k as [|k IH]; intros Hk.
  - simpl. split; auto. intros p. lia.
  - rewrite seq_S, fold_left_app. simpl.
    destruct IH as [IHlen IHnth]; [lia|].
    set (cnt := fold_left _ (seq 0 k) counts) in *.
    split.
    + destruct (has_flags flags (nth k imgMask 0%Q)); auto.
      now rewrite length_incr_at.
    + intros p.
      destruct (Nat.eq_dec p k) as [->|Hpk].
      * assert ((k <? S k)%nat = true) as -> by (apply Nat.ltb_lt; lia).
        specialize (IHnth k).
        assert ((k <? k)%nat = false) as Hkk by (apply Nat.ltb_ge; lia).
        rewrite Hkk in IHnth. unfold flag_bit.
        destruct (has_flags flags (nth k imgMask 0%Q)).
        -- unfold incr_at. rewrite nth_set_at_same by lia. lia.
        -- lia.
      * assert ((p <? S k)%nat = (p <? k)%nat) as ->.
        { destruct (p <? k)%nat eqn:E.
          - apply Nat.ltb_lt in E. apply Nat.ltb_lt. lia.
          - apply Nat.ltb_ge in E. apply Nat.ltb_ge. lia. }
        rewrite <- (IHnth p).
        destruct (has_flags flags (nth k imgMask 0%Q)); auto.
        unfold incr_at. now rewrite nth_set_at_other by congruence.
Qed.

(** The outer loop adds, for every pixel, the number of flagged masks. *)
Lemma count_masks_from (flags : Z) (npixels : nat) (imgs : list LayeredImage)
    (init : list Z) :
  length init = npixels ->
  forall p, (p < npixels)%nat ->
    nth p (fold_left
             (fun cnt img => count_image flags npixels (pixels (mask img)) cnt)
             imgs init) 0
    = nth p init 0
      + Z.of_nat (length (filter
          (fun img => has_flags flags (nth p (pixels (mask img)) 0%Q)) imgs)).
Proof.
  revert init. induction imgs as [|img imgs IH]; intros init Hlen p Hp.
  - simpl. lia.
  - simpl fold_left.
    destruct (count_image_spec flags (pixels (mask img)) init npixels)
      as [Hl Hn]; [lia|].
    rewrite IH by (try lia; congruence).
    rewrite Hn. apply Nat.ltb_lt in Hp. rewrite Hp. unfold flag_bit. simpl.
    destruct (has_flags flags (nth p (pixels (mask img)) 0%Q)); simpl length; lia.
Qed.

Lemma count_masks_spec (s : t) (flags : Z) (p : nat) :
  (p < get_npixels s)%nat ->
  nth p (count_masks flags (get_npixels s) (images s)) 0
  = masked_count s flags p.
Proof.
  intros Hp. unfold count_masks, masked_count.
  rewrite count_masks_from by (auto using repeat_length).
  rewrite nth_repeat. lia.
Qed.

(** The last loop writes 0 or 1 into every pixel below [k]. *)
Lemma threshold_pixels_spec (threshold : Z) (counts : list Z) (gm : list Q)
    (k : nat) :
  (k <= length gm)%nat ->
  length (threshold_pixels threshold k counts gm) = length gm
  /\ forall p, (p < k)%nat ->
       nth p (threshold_pixels threshold k counts gm) 0%Q
       = if nth p counts 0 <? threshold then 0%Q else 1%Q.
Proof.
  intros Hk. unfold threshold_pixels.
  destruct (fold_set_at_seq
              (fun p => if nth p counts 0 <? threshold then 0%Q else 1%Q)
              k gm 0%Q Hk) as [Hlen Hnth].
  split; auto. intros p Hp. rewrite Hnth.
  apply Nat.ltb_lt in Hp. now rewrite Hp.
Qed.

Lemma npixels_width_height (s : t) :
  get_npixels s = (get_width s * get_height s)%nat.
Proof.
  unfold get_npixels, get_width, get_height.
  destruct (images s); reflexivity.
Qed.

(** In a stack whose masks are well formed no mask is read out of
    bounds. *)
Lemma masks_in_bounds_wf (s : t) :
  masks_well_formed s -> masks_in_bounds s = true.
Proof.
  intros H. unfold masks_in_bounds. apply forallb_forall.
  intros img Hin. apply Nat.leb_le. rewrite (H img Hin). lia.
Qed.

(** On a mask pixel that holds an integer in the range of [int], the test
    of the inner loop is the test of the specification. *)
Lemma has_flags_flagged (s : t) (flags : Z) (img : LayeredImage) (p : nat) :
  integer_masks s -> In img (images s) -> (p < get_npixels s)%nat ->
  has_flags flags (nth p (pixels (mask img)) 0%Q) = flagged flags img p.
Proof.
  intros H Hin Hp. destruct (H img Hin p Hp) as [Hint Hrange].
  unfold has_flags, flagged.
  pose proof (truncate_integer _ _ Hint) as Ht.
  rewrite static_cast_int_in_range by (now rewrite Ht).
  now rewrite Ht, Z.land_comm.
Qed.

Lemma masked_count_flagged (s : t) (flags : Z) (p : nat) :
  integer_masks s -> (p < get_npixels s)%nat ->
  masked_count s flags p = flagged_count s flags p.
Proof.
  intros H Hp. unfold masked_count, flagged_count. do 2 f_equal.
  apply filter_ext_in. intros img Hin. now apply has_flags_flagged with s.
Qed.

(** C2.  For every stack (whose masks all have the stack's number of
    pixels and hold integers in the range of [int]), flags and threshold,
    [make_global_mask] returns an image of the stack's width and height
    whose pixel [p] is 1.0 when at least [threshold] images have a mask at
    [p] with a non-zero bitwise AND with [flags], and 0.0 otherwise. *)
Theorem make_global_mask_spec (s : t) (flags threshold : Z) :
  masks_well_formed s ->
  integer_masks s ->
  exists gm,
    make_global_mask s flags threshold = Returns gm
    /\ width gm = get_width s
    /\ height gm = get_height s
    /\ length (pixels gm) = (get_width s * get_height s)%nat
    /\ forall p, (p < get_width s * get_height s)%nat ->
         nth p (pixels gm) 0%Q
         = if threshold <=? flagged_count s flags p then 1%Q else 0%Q.
Proof.
  intros Hwf Hint. unfold make_global_mask.
  rewrite (masks_in_bounds_wf s Hwf).
  eexists. split; [reflexivity|]. simpl.
  destruct (threshold_pixels_spec threshold
              (count_masks flags (get_npixels s) (images s))
              (repeat 0%Q (get_width s * get_height s)) (get_npixels s))
    as [Hlen Hnth].
  { rewrite repeat_length, npixels_width_height. lia. }
  repeat split; auto.
  - now rewrite Hlen, repeat_length.
  - intros p Hp. rewrite <- npixels_width_height in Hp.
    rewrite Hnth by assumption. rewrite count_masks_spec by assumption.
    rewrite masked_count_flagged by assumption.
    destruct (flagged_count s flags p <? threshold) eqn:E1;
      destruct (threshold <=? flagged_count s flags p) eqn:E2; auto.
    + apply Z.ltb_lt in E1. apply Z.leb_le in E2. lia.
    + apply Z.ltb_ge in E1. apply Z.leb_gt in E2. lia.
Qed.

End ImageStackFacts.

(** ** Properties of the trajectory list *)

Module TrajectoryListFacts.
Import TrajectoryList.

Lemma get_trajectory_keeps_list (l : t) (index : Z) :
  snd (get_trajectory l index) = l.
Proof.
  unfold get_trajectory.
  destruct ((index <? 0) || (index >? max_size l)); auto.
  destruct (data_on_gpu l); auto.
Qed.

Lemma get_list_keeps_list (l : t) : snd (get_list l) = l.
Proof. unfold get_list. destruct (data_on_gpu l); auto. Qed.

(** C7.  While the data is on the accelerator, [get_trajectory],
    [set_trajectory] and [get_list] raise an error, and the list after the
    failed call is the list before it. *)
Theorem on_gpu_calls_fail_and_keep_list (l : t) (index : Z)
    (new_value : trajectory) :
  data_on_gpu l = true ->
  (raises (fst (get_trajectory l index))
   /\ snd (get_trajectory l index) = l)
  /\ (raises (fst (set_trajectory l index new_value))
      /\ snd (set_trajectory l index new_value) = l)
  /\ (raises (fst (get_list l))
      /\ snd (get_list l) = l).
Proof.
  intros Hgpu. unfold get_trajectory, set_trajectory, get_list, raises.
  rewrite Hgpu.
  destruct ((index <? 0) || (index >? max_size l)); simpl;
    repeat split; eauto.
Qed.

End TrajectoryListFacts.

(** ** Properties of the search *)

Module KBMOSearchFacts.
Import KBMOSearch Fixtures.

(** *** Insertion sort *)

Section SortFacts.
Context {A : Type} (comp : A -> A -> bool).

Lemma linear_insert_perm (val : A) (l : list A) :
  Permutation (val :: l) (linear_insert comp val l).
Proof.
  induction l as [|e tl IH]; simpl; auto.
  destruct (comp val e); auto.
  eapply perm_trans; [apply perm_swap|]. now constructor.
Qed.

Lemma insertion_sort_from_perm (l acc : list A) :
  Permutation (acc ++ l)
    (fold_left (fun sorted val => linear_insert comp val sorted) l acc).
Proof.
  revert acc. induction l as [|v l IH]; intros acc; simpl.
  - now rewrite app_nil_r.
  - eapply perm_trans; [|apply IH].
    eapply perm_trans; [apply Permutation_sym, Permutation_middle|].
    change (v :: acc ++ l) with ((v :: acc) ++ l).
    apply Permutation_app_tail, linear_insert_perm.
Qed.

Lemma insertion_sort_perm (l : list A) :
  Permutation l (insertion_sort comp l).
Proof. apply (insertion_sort_from_perm l []). Qed.

(** The order that the comparator leaves: [b] is not strictly before [a]. *)
Variable R : A -> A -> Prop.
Hypothesis R_trans : forall a b c, R a b -> R b c -> R a c.
Hypothesis comp_true : forall a b, comp a b = true -> R a b.
Hypothesis comp_false : forall a b, comp a b = false -> R b a.

Lemma linear_insert_sorted (val : A) (l : list A) :
  StronglySorted R l -> StronglySorted R (linear_insert comp val l).
Proof.
  induction 1 as [|e tl Hs IH Hall]; simpl.
  - repeat constructor.
  - destruct (comp val e) eqn:E.
    + constructor; [now constructor|].
      constructor; [now apply comp_true|].
      eapply Forall_impl; [|exact Hall].
      intros c Hc. eapply R_trans; eauto.
    + constructor; auto.
      eapply Permutation_Forall; [apply linear_insert_perm|].
      constructor; auto.
Qed.

Lemma insertion_sort_from_sorted (l acc : list A) :
  StronglySorted R acc ->
  StronglySorted R
    (fold_left (fun sorted val => linear_insert comp val sorted) l acc).
Proof.
  revert acc. induction l as [|v l IH]; intros acc Hacc; simpl; auto.
  apply IH. now apply linear_insert_sorted.
Qed.

Lemma insertion_sort_sorted (l : list A) :
  StronglySorted R (insertion_sort comp l).
Proof. apply insertion_sort_from_sorted. constructor. Qed.

End SortFacts.

(** *** sortResults *)

Lemma lh_ge_trans (a b c : trajectory) : lh_ge a b -> lh_ge b c -> lh_ge a c.
Proof. unfold lh_ge. intros H1 H2. eapply Qle_trans; eauto. Qed.

Lemma lh_greater_true (a b : trajectory) :
  lh_greater a b = true -> lh_ge a b.
Proof. unfold lh_greater, lh_ge. rewrite Qltb_true. apply Qlt_le_weak. Qed.

Lemma lh_greater_false (a b : trajectory) :
  lh_greater a b = false -> lh_ge b a.
Proof. unfold lh_greater, lh_ge. now rewrite Qltb_false. Qed.

(** The comparator looks at [lh] and at nothing else. *)
Lemma lh_greater_only_lh (a a' b b' : trajectory) :
  Trajectory.lh a = Trajectory.lh a' -> Trajectory.lh b = Trajectory.lh b' ->
  lh_greater a b = lh_greater a' b'.
Proof. unfold lh_greater. now intros -> ->. Qed.

(** C1, as the code has it.  The sorted result list is a rearrangement of
    the results, ordered by likelihood descending: every result has an [lh]
    at least that of each later one.  Nothing orders results of equal
    [lh]. *)
Theorem sortResults_sorted_by_lh (results : list trajectory) :
  Permutation results (sortResults results)
  /\ StronglySorted lh_ge (sortResults results).
Proof.
  split.
  - apply insertion_sort_perm.
  - apply insertion_sort_sorted.
    + exact lh_ge_trans.
    + exact lh_greater_true.
    + exact lh_greater_false.
Qed.

(** C1, as the specification has it, fails: of two results with the same
    [lh], the one with fewer observations stays in front when it comes
    first in the search output. *)
Lemma sortResults_ignores_tie_break :
  sortResults [tied_low; tied_high] = [tied_low; tied_high]
  /\ Trajectory.lh tied_low = Trajectory.lh tied_high
  /\ Trajectory.obs_count tied_low < Trajectory.obs_count tied_high
  /\ ~ StronglySorted tie_break_le (sortResults [tied_low; tied_high]).
Proof.
  repeat split; try reflexivity.
  intros H. inversion H as [|a l Hs Hall]; subst.
  inversion Hall as [|b l' Hab _]; subst.
  apply Hab. reflexivity.
Qed.

(** *** get_results *)

Lemma to_size_t_small (z : Z) : 0 <= z <= INT_MAX -> to_size_t z = z.
Proof.
  intros H. unfold to_size_t. apply Z.mod_small.
  unfold INT_MAX in H. lia.
Qed.

Lemma to_int_small (z : Z) : 0 <= z <= INT_MAX -> to_int z = z.
Proof.
  intros H. unfold to_int, INT_MAX in *.
  rewrite Z.mod_small; lia.
Qed.

Lemma to_size_t_negative (z : Z) :
  INT_MIN <= z < 0 -> to_size_t z = z + 2 ^ 64.
Proof.
  intros H. unfold to_size_t. unfold INT_MIN in H.
  rewrite <- (Z.mod_add _ 1 (2 ^ 64)) by lia.
  apply Z.mod_small. lia.
Qed.

(** An [int] that goes through [size_t] comes back as it was. *)
Lemma to_int_to_size_t (z : Z) :
  INT_MIN <= z <= INT_MAX -> to_int (to_size_t z) = z.
Proof.
  intros H. destruct (Z_lt_le_dec z 0) as [Hneg|Hpos].
  - rewrite to_size_t_negative by lia. unfold to_int, INT_MIN, INT_MAX in *.
    replace (z + 2 ^ 64 + 2 ^ 31) with (z + 2 ^ 31 + 2 ^ 32 * 2 ^ 32) by lia.
    rewrite Z.mod_add by lia. rewrite Z.mod_small; lia.
  - rewrite to_size_t_small by lia. apply to_int_small. lia.
Qed.

Lemma vector_range_inside {A : Type} (v : list A) (first last : Z) :
  0 <= first <= last -> last <= Z.of_nat (length v) ->
  vector_range v first last
  = Returns (firstn (Z.to_nat (last - first)) (skipn (Z.to_nat first) v)).
Proof.
  intros [H0 H1] H2. unfold vector_range.
  assert ((last <? first) = false) as -> by now apply Z.ltb_ge.
  assert ((0 <=? first) = true) as -> by now apply Z.leb_le.
  assert ((last <=? Z.of_nat (length v)) = true) as -> by now apply Z.leb_le.
  reflexivity.
Qed.

Lemma vector_range_reversed {A : Type} (v : list A) (first last : Z) :
  last < first -> vector_range v first last = Throws max_size_error.
Proof.
  intros H. unfold vector_range.
  now assert ((last <? first) = true) as -> by now apply Z.ltb_lt.
Qed.

(** The outcome of [get_results] for every pair of [int] arguments whose
    sum is an [int]. *)
Lemma get_results_cases (results : list trajectory) (start count : Z) :
  in_int start = true -> in_int count = true ->
  in_int (start + count) = true ->
  let S := Z.of_nat (length results) in
  (start < 0 -> get_results results start count = Throws start_error)
  /\ (S < start ->
      get_results results start count = Throws max_size_error)
  /\ (0 <= start <= S -> count < 0 -> 0 <= start + count ->
      get_results results start count = Throws max_size_error)
  /\ (0 <= start <= S -> 0 <= count ->
      get_results results start count
      = Returns (firstn (Z.to_nat (Z.min count (S - start)))
                        (skipn (Z.to_nat start) results)))
  /\ (0 <= start <= S -> S <= INT_MAX -> start + count < 0 ->
      get_results results start count
      = Returns (skipn (Z.to_nat start) results)).
Proof.
  intros Hs Hc Hsum S. unfold get_results. rewrite Hsum. simpl negb.
  cbv iota. apply in_int_bounds in Hs, Hc, Hsum. fold S.
  assert (INT_MIN < 0 <= INT_MAX) as Hmin by (unfold INT_MIN, INT_MAX; lia).
  assert (0 <= S) as HS0 by (unfold S; lia).
  split; [|split; [|split; [|split]]].
  - intros H. now assert ((start <? 0) = true) as -> by now apply Z.ltb_lt.
  - intros H.
    assert ((start <? 0) = false) as -> by (apply Z.ltb_ge; lia).
    apply vector_range_reversed.
    destruct (to_size_t (start + count) >=? S) eqn:E.
    + rewrite (to_size_t_small start) by lia.
      rewrite to_int_to_size_t by (unfold INT_MIN, INT_MAX in *; lia). lia.
    + rewrite Z.geb_leb in E. apply Z.leb_gt in E.
      destruct (Z_lt_le_dec (start + count) 0) as [Hneg|Hpos].
      * rewrite to_size_t_negative in E by lia.
        unfold INT_MIN, INT_MAX in *. lia.
      * rewrite to_size_t_small in E by lia. lia.
  - intros [H0 HS] Hneg Hpos.
    assert ((start <? 0) = false) as -> by now apply Z.ltb_ge.
    rewrite (to_size_t_small (start + count)) by lia.
    assert ((start + count >=? S) = false) as ->
      by (rewrite Z.geb_leb; apply Z.leb_gt; lia).
    apply vector_range_reversed. lia.
  - intros [H0 HS] Hpos.
    assert ((start <? 0) = false) as -> by now apply Z.ltb_ge.
    rewrite (to_size_t_small (start + count)) by lia.
    destruct (start + count >=? S) eqn:E; rewrite Z.geb_leb in E.
    + apply Z.leb_le in E.
      rewrite (to_size_t_small start), (to_size_t_small (S - start)) by lia.
      rewrite to_int_small by lia.
      rewrite vector_range_inside by (fold S; lia).
      rewrite Z.min_r by lia. do 3 f_equal. lia.
    + apply Z.leb_gt in E.
      rewrite vector_range_inside by (fold S; lia).
      rewrite Z.min_l by lia. do 3 f_equal. lia.
  - intros [H0 HS] Hmax Hneg.
    assert ((start <? 0) = false) as -> by now apply Z.ltb_ge.
    rewrite to_size_t_negative by lia.
    assert ((start + count + 2 ^ 64 >=? S) = true) as ->.
    { rewrite Z.geb_leb. apply Z.leb_le. unfold INT_MIN, INT_MAX in *. lia. }
    rewrite (to_size_t_small start), (to_size_t_small (S - start)) by lia.
    rewrite to_int_small by lia.
    rewrite vector_range_inside by (fold S; lia).
    apply f_equal, firstn_all2. rewrite length_skipn. lia.
Qed.


(** *** createCurves *)

(** Where the displacement is at least -1/2 the truncation is a floor and
    the sampled coordinate is the rounded prediction: the negative
    displacements are the case that [int(v + 0.5)] misses. *)
Lemma static_cast_int_nonneg (q : Q) :
  (0 <= q)%Q -> in_int (Qfloor q) = true -> static_cast_int q = Qfloor q.
Proof.
  intros H0 Hr. rewrite <- (truncate_nonneg q H0) in Hr.
  rewrite static_cast_int_in_range by assumption.
  now apply truncate_nonneg.
Qed.

Lemma Qfloor_shift (z : Z) (q : Q) :
  Qfloor (inject_Z z + q) = z + Qfloor q.
Proof.
  destruct q as [n d]. unfold Qfloor, Qplus, inject_Z. simpl.
  rewrite Z.mul_1_r. apply Z.div_add_l. lia.
Qed.

(** The integer part of a displacement between -1/2 and
    [max_displacement], plus 1/2. *)
Lemma displacement_floor (d : Q) :
  (- half <= d)%Q -> (d <= inject_Z max_displacement)%Q ->
  (0 <= d + half)%Q /\ 0 <= Qfloor (d + half) <= max_displacement.
Proof.
  intros Hlo Hhi.
  assert (0 <= d + half)%Q as H0.
  { apply (Qplus_le_l _ _ (- half)). ring_simplify.
    eapply Qle_trans; [|exact Hlo]. ring_simplify. apply Qle_refl. }
  split; [exact H0|]. split.
  - change 0 with (Qfloor 0). now apply Qfloor_resp_le.
  - assert (d + half <= inject_Z max_displacement + half)%Q as H1
      by (apply Qplus_le_l; exact Hhi).
    apply Qfloor_resp_le in H1.
    rewrite Qfloor_shift in H1. exact H1.
Qed.

Lemma sample_rounds_forward (x : Z) (time v : Q) :
  (- half <= time * v)%Q -> (time * v <= inject_Z max_displacement)%Q ->
  x + static_cast_int (time * v + half) = round (inject_Z x + v * time)
  /\ x <= round (inject_Z x + v * time) <= x + max_displacement.
Proof.
  intros Hlo Hhi.
  destruct (displacement_floor _ Hlo Hhi) as [H0 Hfl].
  assert (round (inject_Z x + v * time) = x + Qfloor (time * v + half)) as ->.
  { unfold round. rewrite <- Qfloor_shift. apply Qfloor_comp. ring. }
  rewrite static_cast_int_nonneg; auto; [lia|].
  apply in_int_bounds. unfold INT_MIN, INT_MAX, max_displacement in *. lia.
Qed.

(** X13.  Without barycentric correction, for an image at which the
    displacement of the trajectory is between -1/2 pixel and
    [max_displacement] pixels in x and in y, [createCurves] samples the
    predicted position rounded to the nearest pixel; the [int] sums of the
    [short] coordinates and the displacements do not overflow. *)
Lemma curve_pixel_forward (s : t) (trj : trajectory) (n : nat) :
  use_corr s = false ->
  in_short (Trajectory.x trj) = true ->
  in_short (Trajectory.y trj) = true ->
  (- half <= nth n (times s) 0 * Trajectory.vx trj)%Q ->
  (nth n (times s) 0 * Trajectory.vx trj <= inject_Z max_displacement)%Q ->
  (- half <= nth n (times s) 0 * Trajectory.vy trj)%Q ->
  (nth n (times s) 0 * Trajectory.vy trj <= inject_Z max_displacement)%Q ->
  curve_pixel s trj n = predicted_pixel trj (nth n (times s) 0%Q)
  /\ in_int (fst (curve_pixel s trj n)) = true
  /\ in_int (snd (curve_pixel s trj n)) = true.
Proof.
  intros Hc Hsx Hsy Hx Hx' Hy Hy'. unfold curve_pixel, predicted_pixel.
  rewrite Hc. cbv zeta.
  destruct (sample_rounds_forward (Trajectory.x trj) _ _ Hx Hx') as [-> Bx].
  destruct (sample_rounds_forward (Trajectory.y trj) _ _ Hy Hy') as [-> By].
  unfold in_short in Hsx, Hsy.
  apply andb_true_iff in Hsx as [Hx1 Hx2], Hsy as [Hy1 Hy2].
  apply Z.leb_le in Hx1, Hy1. apply Z.ltb_lt in Hx2, Hy2.
  split; [reflexivity|]. simpl fst. simpl snd.
  split; apply in_int_bounds;
    unfold INT_MIN, INT_MAX, max_displacement in *; lia.
Qed.

(** C3.  The sampled pixel should be the predicted position rounded to the
    nearest pixel.  [int(v + 0.5)] truncates toward zero: a trajectory at
    x = 10 moving by -1.25 pixels is sampled at x = 10, not at
    round(8.75) = 9, which the branch under [use_corr] (with no correction)
    does sample, so that on an image whose pixels hold their x coordinate
    the two branches read 10 and 9; a trajectory predicted at x = -1.25 is
    sampled at x = 0 by both branches, not outside the image at
    round(-1.25) = -1.  All the values involved are exact as floats. *)
Theorem createCurves_truncates_toward_zero :
  curve_pixel two_epochs moving_left 1 = (10, 10)
  /\ predicted_pixel moving_left 1%Q = (9, 10)
  /\ curve_pixel two_epochs_corr moving_left 1 = (9, 10)
  /\ createCurves two_epochs moving_left [ramp; ramp] = Returns [10%Q; 10%Q]
  /\ createCurves two_epochs_corr moving_left [ramp; ramp]
     = Returns [10%Q; 9%Q]
  /\ curve_pixel two_epochs leaving_left 1 = (0, 10)
  /\ curve_pixel two_epochs_corr leaving_left 1 = (0, 10)
  /\ predicted_pixel leaving_left 1%Q = (-1, 10).
Proof. repeat split; vm_compute; reflexivity. Qed.

(** *** createSearchList *)

Section GridFacts.
Context {F : Type}.
Variables (fadd fsub fmul fdiv : F -> F -> F).
Variables (fcos fsin : F -> F).
Variable float_of_int : Z -> F.
Variable fzero : F.

Let dflt : Trajectory.t F := Trajectory.zero fzero.

Lemma fill_steps_spec (steps : Z) (lo stepsize : F) (v : list F) :
  (Z.to_nat steps <= length v)%nat ->
  length (fill_steps fadd fmul float_of_int steps lo stepsize v) = length v
  /\ forall n, (n < Z.to_nat steps)%nat ->
       nth n (fill_steps fadd fmul float_of_int steps lo stepsize v) fzero
       = fadd lo (fmul (float_of_int (Z.of_nat n)) stepsize).
Proof.
  intros Hk. unfold fill_steps.
  destruct (fold_set_at_seq
              (fun n => fadd lo (fmul (float_of_int (Z.of_nat n)) stepsize))
              (Z.to_nat steps) v fzero Hk) as [Hlen Hnth].
  split; auto. intros n Hn. rewrite Hnth.
  apply Nat.ltb_lt in Hn. now rewrite Hn.
Qed.

Variables (angles velocities : list F) (B : nat).

Local Notation "'with_vel'" :=
  (with_velocity fmul fcos fsin fzero angles velocities).
Local Notation "'inner'" :=
  (inner_loop fmul fcos fsin fzero angles velocities B).
Local Notation "'outer'" :=
  (outer_loop fmul fcos fsin fzero angles velocities B).

Lemma set_velocity_spec (sl : list (Trajectory.t F)) (a v : nat) :
  (a * B + v < length sl)%nat ->
  let r := set_velocity fmul fcos fsin fzero angles velocities B sl a v in
  length r = length sl
  /\ nth (a * B + v) r dflt = with_vel (nth (a * B + v) sl dflt) a v
  /\ forall p, p <> (a * B + v)%nat -> nth p r dflt = nth p sl dflt.
Proof.
  intros Hk r. subst r. unfold set_velocity, with_velocity.
  fold dflt. repeat split.
  - now rewrite !length_set_at.
  - rewrite nth_set_at_same by now rewrite length_set_at.
    now rewrite nth_set_at_same.
  - intros p Hp. now rewrite !nth_set_at_other by congruence.
Qed.

Lemma inner_loop_spec (a m : nat) (sl : list (Trajectory.t F)) :
  (a * B + m <= length sl)%nat ->
  length (inner a m sl) = length sl
  /\ forall p,
       nth p (inner a m sl) dflt
       = if ((a * B <=? p) && (p <? a * B + m))%nat
         then with_vel (nth p sl dflt) a (p - a * B)
         else nth p sl dflt.
Proof.
  unfold inner_loop.
  induction m as [|m IH]; intros Hm.
  - simpl. split; auto. intros p.
    destruct (Nat.leb_spec (a * B) p), (Nat.ltb_spec p (a * B + 0));
      simpl; auto; lia.
  - rewrite seq_S, fold_left_app. simpl.
    destruct IH as [IHlen IHnth]; [lia|].
    set (r := fold_left _ (seq 0 m) sl) in *.
    destruct (set_velocity_spec r a m) as [Hl [Hk Ho]]; [lia|].
    split; [congruence|].
    intros p. destruct (Nat.eq_dec p (a * B + m)) as [->|Hp].
    + rewrite Hk, IHnth.
      destruct (Nat.leb_spec (a * B) (a * B + m)),
               (Nat.ltb_spec (a * B + m) (a * B + m)),
               (Nat.ltb_spec (a * B + m) (a * B + S m));
        simpl; try lia.
      f_equal. lia.
    + rewrite Ho, IHnth by assumption.
      destruct (Nat.leb_spec (a * B) p), (Nat.ltb_spec p (a * B + m)),
               (Nat.ltb_spec p (a * B + S m)); simpl; auto; lia.
Qed.

Lemma outer_loop_spec (n : nat) (sl : list (Trajectory.t F)) :
  (n * B <= length sl)%nat ->
  length (outer n sl) = length sl
  /\ (forall a b, (a < n)%nat -> (b < B)%nat ->
        nth (a * B + b) (outer n sl) dflt
        = with_vel (nth (a * B + b) sl dflt) a b)
  /\ (forall p, (n * B <= p)%nat ->
        nth p (outer n sl) dflt = nth p sl dflt).
Proof.
  unfold outer_loop.
  induction n as [|n IH]; intros Hn.
  - simpl. repeat split; auto. intros a b Ha. lia.
  - rewrite seq_S, fold_left_app. simpl.
    destruct IH as [IHlen [IHin IHout]]; [lia|].
    set (r := fold_left _ (seq 0 n) sl) in *.
    destruct (inner_loop_spec n B r) as [Hl Hnth]; [simpl in Hn; lia|].
    split; [congruence|]. split.
    + intros a b Ha Hb. rewrite Hnth.
      destruct (Nat.eq_dec a n) as [->|Han].
      * destruct (Nat.leb_spec (n * B) (n * B + b)),
                 (Nat.ltb_spec (n * B + b) (n * B + B)); simpl; try lia.
        rewrite IHout by lia. f_equal. lia.
      * assert (a * B + b < n * B)%nat by nia.
        destruct (Nat.leb_spec (n * B) (a * B + b)); simpl; try lia.
        apply IHin; lia.
    + intros p Hp. rewrite Hnth. simpl in Hp.
      destruct (Nat.leb_spec (n * B) p), (Nat.ltb_spec p (n * B + B));
        simpl; try lia.
      apply IHout. lia.
Qed.

End GridFacts.

Section GridTheorem.
Context {F : Type}.
Variables (fadd fsub fmul fdiv : F -> F -> F).
Variables (fcos fsin : F -> F).
Variable float_of_int : Z -> F.
Variable fzero : F.

Lemma vector_new_nonneg {A : Type} (n : Z) (a : A) :
  0 <= n -> vector_new n a = Returns (repeat a (Z.to_nat n)).
Proof.
  intros H. unfold vector_new.
  now assert ((n <? 0) = false) as -> by now apply Z.ltb_ge.
Qed.

Lemma createSearchList_is_grid (angle_steps velocity_steps : Z)
    (min_ang max_ang min_vel max_vel : F) :
  0 <= angle_steps -> 0 <= velocity_steps ->
  angle_steps * velocity_steps <= INT_MAX ->
  exists search_list,
    createSearchList fadd fsub fmul fdiv fcos fsin float_of_int fzero
      angle_steps velocity_steps min_ang max_ang min_vel max_vel
    = Returns search_list
    /\ is_grid fadd fsub fmul fdiv fcos fsin float_of_int fzero
         angle_steps velocity_steps min_ang max_ang min_vel max_vel
         search_list.
Proof.
  intros HA HB Hmax. unfold createSearchList.
  rewrite !vector_new_nonneg by assumption. simpl bind.
  assert (in_int (angle_steps * velocity_steps) = true) as ->.
  { apply in_int_bounds. unfold INT_MIN. nia. }
  simpl negb. cbv iota.
  rewrite vector_new_nonneg by nia. simpl bind.
  set (ang_stepsize := fdiv (fsub max_ang min_ang) (float_of_int angle_steps)).
  set (vel_stepsize := fdiv (fsub max_vel min_vel) (float_of_int velocity_steps)).
  set (angles := fill_steps _ _ _ angle_steps _ _ _).
  set (velocities := fill_steps _ _ _ velocity_steps _ _ _).
  destruct (fill_steps_spec fadd fmul float_of_int fzero angle_steps min_ang
              ang_stepsize (repeat fzero (Z.to_nat angle_steps)))
    as [_ Hang]; [now rewrite repeat_length|].
  destruct (fill_steps_spec fadd fmul float_of_int fzero velocity_steps min_vel
              vel_stepsize (repeat fzero (Z.to_nat velocity_steps)))
    as [_ Hvel]; [now rewrite repeat_length|].
  fold angles in Hang. fold velocities in Hvel.
  assert (Z.to_nat (angle_steps * velocity_steps)
          = (Z.to_nat angle_steps * Z.to_nat velocity_steps)%nat) as Hmul
    by now apply Z2Nat.inj_mul.
  destruct (outer_loop_spec fmul fcos fsin fzero angles velocities
              (Z.to_nat velocity_steps) (Z.to_nat angle_steps)
              (repeat (Trajectory.zero fzero)
                 (Z.to_nat (angle_steps * velocity_steps))))
    as [Hlen [Hin _]].
  { rewrite repeat_length. lia. }
  eexists. split; [reflexivity|]. split.
  - rewrite Hlen, repeat_length. nia.
  - intros a b Ha Hb.
    assert (Z.to_nat (a * velocity_steps + b)
            = (Z.to_nat a * Z.to_nat velocity_steps + Z.to_nat b)%nat) as ->.
    { rewrite Z2Nat.inj_add, Z2Nat.inj_mul by nia. reflexivity. }
    specialize (Hin (Z.to_nat a) (Z.to_nat b)). cbv zeta.
    rewrite Hin by lia.
    rewrite nth_repeat. unfold with_velocity.
    rewrite Hang, Hvel by lia. rewrite !Z2Nat.id by lia.
    split; reflexivity.
Qed.

(** C4.  For [A >= 0] angle steps and [B >= 0] velocity steps whose product
    is an [int], the search list has A*B entries, and the entry at
    [a*B + b] has the velocity
    (cos(alpha_a) * v_b, sin(alpha_a) * v_b) with
    [alpha_a = min_ang + a * ((max_ang - min_ang) / A)] and
    [v_b = min_vel + b * ((max_vel - min_vel) / B)]. *)
Theorem createSearchList_grid (angle_steps velocity_steps : Z)
    (min_ang max_ang min_vel max_vel : F) :
  0 <= angle_steps -> 0 <= velocity_steps ->
  angle_steps * velocity_steps <= INT_MAX ->
  exists search_list,
    createSearchList fadd fsub fmul fdiv fcos fsin float_of_int fzero
      angle_steps velocity_steps min_ang max_ang min_vel max_vel
    = Returns search_list
    /\ Z.of_nat (length search_list) = angle_steps * velocity_steps
    /\ forall a b, 0 <= a < angle_steps -> 0 <= b < velocity_steps ->
         let trj := nth (Z.to_nat (a * velocity_steps + b)) search_list
                        (Trajectory.zero fzero) in
         let alpha :=
           grid_angle fadd fsub fmul fdiv float_of_int
             angle_steps min_ang max_ang a in
         let v :=
           grid_velocity fadd fsub fmul fdiv float_of_int
             velocity_steps min_vel max_vel b in
         Trajectory.vx trj = fmul (fcos alpha) v
         /\ Trajectory.vy trj = fmul (fsin alpha) v.
Proof.
  intros HA HB Hmax.
  destruct (createSearchList_is_grid angle_steps velocity_steps
              min_ang max_ang min_vel max_vel HA HB Hmax)
    as [sl [Hret [Hlen Hvel]]].
  exists sl. auto.
Qed.

End GridTheorem.

End KBMOSearchFacts.

(** ** Properties of the stamp creator *)

Module StampCreatorFacts.
Import StampCreator.

Section WithLib.
Context {lib : ImageLib}.

Lemma peak_off_centre_true (idx : Index) (params : StampParameters) :
  peak_off_centre idx params = true <-> peak_offset_reached idx params.
Proof.
  unfold peak_off_centre, peak_offset_reached.
  now rewrite orb_true_iff, !Qgeb_true.
Qed.

Lemma moments_over_limit_true (m : ImageMoments) (params : StampParameters) :
  moments_over_limit m params = true <-> moments_limit_reached m params.
Proof.
  unfold moments_over_limit, moments_limit_reached.
  rewrite !orb_true_iff, !Qgeb_true. tauto.
Qed.

Lemma sum_pixels_all (pixels : list Q) (stamp_ppi : Z) :
  Z.of_nat (length pixels) = stamp_ppi ->
  sum_pixels pixels stamp_ppi = Returns (fold_left Qplus pixels 0%Q).
Proof.
  intros H. unfold sum_pixels.
  assert ((Z.of_nat (length pixels) <? stamp_ppi) = false) as ->
    by (apply Z.ltb_ge; lia).
  rewrite firstn_all2 by lia. reflexivity.
Qed.

Lemma stamp_sized_pixels (img : RawImage) (params : StampParameters) :
  stamp_sized img params ->
  Z.of_nat (length (pixels img))
  = (2 * radius params + 1) * (2 * radius params + 1).
Proof.
  intros (_ & Hw & Hh & Hwf & _). rewrite Hwf, Nat2Z.inj_mul. congruence.
Qed.

Lemma low_centre_flux_spec (img : RawImage) (params : StampParameters) :
  stamp_sized img params ->
  exists low,
    low_centre_flux img (find_peak img true) params = Returns low
    /\ ((0 < center_thresh params)%Q ->
        low = true <-> centre_flux_low img (find_peak img true) params).
Proof.
  intros Hs. pose proof (stamp_sized_pixels img params Hs) as Hlen.
  destruct Hs as (Hr & _ & _ & _ & Hi & Hj).
  set (idx := find_peak img true) in *.
  unfold low_centre_flux, centre_flux_low.
  destruct (vector_at_inside (pixels img)
              (j idx * (2 * radius params + 1) + i idx))
    as [center_val Hcv]; [nia|].
  rewrite Hcv, (sum_pixels_all _ _ Hlen). simpl bind.
  eexists. split; [reflexivity|]. intros Hthresh. split.
  - intros Hlow. split; auto. now exists center_val.
  - intros (_ & cv & Hcv' & Hlow). congruence.
Qed.

Lemma filter_stamp_spec (img : RawImage) (params : StampParameters) :
  stamp_sized img params ->
  exists rejected,
    filter_stamp img params = Returns rejected
    /\ (rejected = true <-> reject_condition img params).
Proof.
  intros Hs. unfold filter_stamp, reject_condition.
  set (idx := find_peak img true).
  destruct (peak_off_centre idx params) eqn:Epeak.
  { exists true. split; auto. split; auto. intros _. left.
    now apply peak_off_centre_true. }
  assert (~ peak_offset_reached idx params) as Hpeak.
  { rewrite <- peak_off_centre_true. congruence. }
  pose proof (moments_over_limit_true (find_central_moments img) params)
    as Hmom.
  destruct (Qltb 0 (center_thresh params)) eqn:Ethresh.
  - apply Qltb_true in Ethresh.
    destruct (low_centre_flux_spec img params Hs) as [low [Hlow Hiff]].
    fold idx in Hlow, Hiff. rewrite Hlow. simpl bind.
    specialize (Hiff Ethresh). destruct low.
    + exists true. split; auto. split; auto. intros _. right. left.
      now apply Hiff.
    + eexists. split; [reflexivity|]. rewrite Hmom. split; auto.
      intros [H|[H|H]]; auto; [tauto|]. apply Hiff in H. discriminate.
  - apply Qltb_false in Ethresh. simpl bind.
    eexists. split; [reflexivity|]. rewrite Hmom. split; auto.
    intros [H|[H|H]]; auto; [tauto|].
    destruct H as [Hpos _]. exfalso. eapply Qlt_not_le; eauto.
Qed.

(** A round of the loop that returns went through each of its steps. *)
Lemma coadd_one_returns (stack : ImageStack.t) (t_array : list trajectory)
    (use_index_vect : list (list bool)) (params : StampParameters) (n : nat)
    (r : RawImage) :
  do_filtering params = true ->
  coadd_one stack t_array use_index_vect params n = Returns r ->
  exists trj use_index stamps coadded rejected,
    nth_error t_array n = Some trj
    /\ nth_error use_index_vect n = Some use_index
    /\ create_stamps stack trj (radius params) true use_index = Returns stamps
    /\ coadd (stamp_type params) stamps = Returns coadded
    /\ filter_stamp coadded params = Returns rejected
    /\ r = if rejected then no_data_stamp else coadded.
Proof.
  intros Hf. unfold coadd_one. rewrite Hf.
  destruct (vector_at t_array (Z.of_nat n)) as [trj| |] eqn:E1;
    simpl; try discriminate.
  destruct (vector_at use_index_vect (Z.of_nat n)) as [use_index| |] eqn:E2;
    simpl; try discriminate.
  destruct (create_stamps stack trj (radius params) true use_index)
    as [stamps| |] eqn:E3; simpl; try discriminate.
  destruct (coadd (stamp_type params) stamps) as [coadded| |] eqn:E4;
    simpl; try discriminate.
  destruct (filter_stamp coadded params) as [rejected| |] eqn:E5;
    simpl; try discriminate.
  intros [= <-]. apply vector_at_nat in E1, E2.
  exists trj, use_index, stamps, coadded, rejected. auto 10.
Qed.

(** C5, as the code has it.  With filtering enabled, every stamp that
    [get_coadded_stamps_cpu] returns comes from a coadd that [filter_stamp]
    has judged: a rejected coadd is replaced by the 1x1 image holding
    [NO_DATA], any other is returned as it is; and a coadd of the stamp
    size is rejected if and only if the offset of its peak from the centre
    reaches ([>=]) [peak_offset_x] or [peak_offset_y], or [center_thresh > 0]
    and the peak value over the sum of the pixels is below [center_thresh],
    or a moment reaches its limit. *)
Theorem rejected_stamps_are_replaced (stack : ImageStack.t)
    (t_array : list trajectory) (use_index_vect : list (list bool))
    (params : StampParameters) (results : list RawImage) (n : nat)
    (r : RawImage) :
  do_filtering params = true ->
  get_coadded_stamps_cpu stack t_array use_index_vect params
  = Returns results ->
  nth_error results n = Some r ->
  exists trj use_index stamps coadded rejected,
    nth_error t_array n = Some trj
    /\ nth_error use_index_vect n = Some use_index
    /\ create_stamps stack trj (radius params) true use_index = Returns stamps
    /\ coadd (stamp_type params) stamps = Returns coadded
    /\ filter_stamp coadded params = Returns rejected
    /\ r = (if rejected then mkRawImage 1 1 [NO_DATA] else coadded)
    /\ (stamp_sized coadded params ->
        rejected = true <-> reject_condition coadded params).
Proof.
  intros Hf Hres Hn. unfold get_coadded_stamps_cpu in Hres.
  apply mapM_seq_returns in Hres as [_ Hnth].
  specialize (Hnth n r Hn). simpl in Hnth.
  destruct (coadd_one_returns _ _ _ _ _ _ Hf Hnth)
    as (trj & use_index & stamps & coadded & rejected
        & H1 & H2 & H3 & H4 & H5 & H6).
  exists trj, use_index, stamps, coadded, rejected.
  repeat (split; [assumption|]).
  intros Hs. destruct (filter_stamp_spec coadded params Hs) as [b [Hb Hiff]].
  congruence.
Qed.

(** C9, as the code has it.  In a build without the accelerator,
    [get_coadded_stamps] with [use_gpu = true] writes the warning and then
    does what the call with [use_gpu = false] does: it returns the same
    stamps, or raises the same error. *)
Theorem no_gpu_falls_back_to_cpu (stack : ImageStack.t)
    (t_array : list trajectory) (use_index_vect : list (list bool))
    (params : StampParameters) :
  HAVE_CUDA = false ->
  get_coadded_stamps stack t_array use_index_vect params true
  = ([no_gpu_warning],
     get_coadded_stamps_cpu stack t_array use_index_vect params)
  /\ snd (get_coadded_stamps stack t_array use_index_vect params true)
     = snd (get_coadded_stamps stack t_array use_index_vect params false)
  /\ fst (get_coadded_stamps stack t_array use_index_vect params false) = [].
Proof.
  unfold HAVE_CUDA, get_coadded_stamps.
  destruct get_coadded_stamps_gpu; [discriminate|]. auto.
Qed.

End WithLib.

End StampCreatorFacts.

(** ** The grid over the real numbers *)

Module RealGridFacts.
Import KBMOSearch KBMOSearchFacts RealGrid.

(** With real arithmetic for the floats, the velocities are those of the
    specification, letter for letter. *)
Corollary createSearchList_real_grid (A B : Z)
    (min_ang max_ang min_vel max_vel : R) :
  0 <= A -> 0 <= B -> A * B <= INT_MAX ->
  exists search_list,
    createSearchList_R A B min_ang max_ang min_vel max_vel
    = Returns search_list
    /\ Z.of_nat (length search_list) = A * B
    /\ forall a b, 0 <= a < A -> 0 <= b < B ->
         let trj := nth (Z.to_nat (a * B + b)) search_list
                        (Trajectory.zero 0%R) in
         let alpha := (min_ang + IZR a * (max_ang - min_ang) / IZR A)%R in
         let v := (min_vel + IZR b * (max_vel - min_vel) / IZR B)%R in
         Trajectory.vx trj = (cos alpha * v)%R
         /\ Trajectory.vy trj = (sin alpha * v)%R.
Proof.
  intros HA HB Hmax.
  destruct (createSearchList_is_grid Rplus Rminus Rmult Rdiv cos sin IZR 0%R
              A B min_ang max_ang min_vel max_vel HA HB Hmax)
    as [sl [Hret [Hlen Hvel]]].
  exists sl. repeat split; auto;
    destruct (Hvel a b H H0) as [Hx Hy]; cbv zeta in *;
    unfold grid_angle, grid_velocity in *.
  - rewrite Hx. f_equal; [f_equal|]; unfold Rdiv; ring.
  - rewrite Hy. f_equal; [f_equal|]; unfold Rdiv; ring.
Qed.

End RealGridFacts.

(** ** The properties at concrete inputs *)

Module Examples.
Import Fixtures.

(** The global mask of three 2x2 images for the flag 1 and the threshold
    2.  The masks are [0 1 0 2], [0 3 1 2] and [0 0 0 2]: only pixel 1 has
    the flag 1 in two images. *)
Lemma make_global_mask_spec_witness :
  (ImageStack.masks_well_formed masked_stack
   /\ ImageStack.integer_masks masked_stack)
  /\ ImageStack.make_global_mask masked_stack 1 2
     = Returns (mkRawImage 2 2 [0; 1; 0; 0]%Q).
Proof.
  assert (ImageStack.masks_well_formed masked_stack) as Hwf.
  { intros img [<-|[<-|[<-|[]]]]; reflexivity. }
  assert (ImageStack.integer_masks masked_stack) as Hint.
  { intros img Hin p Hp.
    change (ImageStack.get_npixels masked_stack) with 4%nat in Hp.
    destruct p as [|[|[|[|p]]]]; [| | | |lia];
      destruct Hin as [<-|[<-|[<-|[]]]]; split; vm_compute; reflexivity. }
  split; [split; assumption|].
  destruct (ImageStackFacts.make_global_mask_spec masked_stack 1 2 Hwf Hint)
    as (gm & Hret & Hw & Hh & Hlen & Hpix).
  rewrite Hret. destruct gm as [w h px].
  pose proof (Hpix 0%nat ltac:(vm_compute; lia)) as H0.
  pose proof (Hpix 1%nat ltac:(vm_compute; lia)) as H1.
  pose proof (Hpix 2%nat ltac:(vm_compute; lia)) as H2.
  pose proof (Hpix 3%nat ltac:(vm_compute; lia)) as H3.
  clear Hpix. vm_compute in Hw, Hh, Hlen.
  destruct px as [|a [|b [|c [|d [|e px]]]]]; try discriminate Hlen.
  vm_compute in H0, H1, H2, H3. now subst.
Defined.

(** Why the masks must hold values that an [int] can hold: the mask value
    3000000000 has the flag 512, but its conversion to [int] gives
    [INT_MIN] and the test of the inner loop does not see the flag. *)
Lemma mask_beyond_int_is_not_flagged :
  static_cast_int 3000000000 = INT_MIN
  /\ ImageStack.has_flags 512 3000000000 = false
  /\ Z.land 3000000000 512 = 512.
Proof. repeat split. Qed.

(** The same conversion in [createCurves]: a displacement of 3000000000
    pixels is sampled at [10 + INT_MIN]. *)
Lemma displacement_beyond_int_is_sampled_at_INT_MIN :
  KBMOSearch.curve_pixel two_epochs
    (Trajectory.mk 10 10 3000000000%Q 0%Q 0%Q 0%Q 0) 1
  = (-2147483638, 10).
Proof. vm_compute. reflexivity. Qed.

(** The three calls on a list of two trajectories held by the
    accelerator. *)
Lemma on_gpu_calls_fail_and_keep_list_witness :
  TrajectoryList.data_on_gpu on_gpu_list = true
  /\ (raises (fst (TrajectoryList.get_trajectory on_gpu_list 0))
      /\ snd (TrajectoryList.get_trajectory on_gpu_list 0) = on_gpu_list)
  /\ (raises (fst (TrajectoryList.set_trajectory on_gpu_list 0 best))
      /\ snd (TrajectoryList.set_trajectory on_gpu_list 0 best) = on_gpu_list)
  /\ (raises (fst (TrajectoryList.get_list on_gpu_list))
      /\ snd (TrajectoryList.get_list on_gpu_list) = on_gpu_list).
Proof.
  split; [reflexivity|].
  apply (TrajectoryListFacts.on_gpu_calls_fail_and_keep_list on_gpu_list 0 best).
  reflexivity.
Defined.



(** Two angles in [0, pi) and three velocities in [0, 2), over the
    reals. *)
Lemma createSearchList_grid_witness :
  (0 <= 2 /\ 0 <= 3 /\ 2 * 3 <= INT_MAX)
  /\ exists search_list,
       RealGrid.createSearchList_R 2 3 0%R PI 0%R 2%R = Returns search_list
       /\ Z.of_nat (length search_list) = 2 * 3
       /\ forall a b, 0 <= a < 2 -> 0 <= b < 3 ->
            let trj := nth (Z.to_nat (a * 3 + b)) search_list
                           (Trajectory.zero 0%R) in
            let alpha :=
              KBMOSearch.grid_angle Rplus Rminus Rmult Rdiv IZR 2 0%R PI a in
            let v :=
              KBMOSearch.grid_velocity Rplus Rminus Rmult Rdiv IZR 3 0%R 2%R b in
            Trajectory.vx trj = (cos alpha * v)%R
            /\ Trajectory.vy trj = (sin alpha * v)%R.
Proof.
  assert (0 <= 2 /\ 0 <= 3 /\ 2 * 3 <= INT_MAX) as H
    by (unfold INT_MAX; lia).
  split; [exact H|]. destruct H as [HA [HB Hmax]].
  exact (KBMOSearchFacts.createSearchList_grid
           Rplus Rminus Rmult Rdiv cos sin IZR 0%R 2 3 0%R PI 0%R 2%R
           HA HB Hmax).
Defined.

Section WithSpecImages.
Existing Instance SpecImages.lib.
Import StampCreator.

(** The sum coadd of one 5x5 image along a trajectory at rest at its
    centre, filtered with an allowed peak offset of one pixel. *)
Lemma rejected_stamps_are_replaced_witness :
  do_filtering (sum_params 1) = true
  /\ get_coadded_stamps_cpu one_image [at_centre] [[]] (sum_params 1)
     = Returns [mkRawImage 1 1 [NO_DATA]]
  /\ nth_error [mkRawImage 1 1 [NO_DATA]] 0 = Some (mkRawImage 1 1 [NO_DATA])
  /\ exists trj use_index stamps coadded rejected,
       nth_error [at_centre] 0 = Some trj
       /\ nth_error [@nil bool] 0 = Some use_index
       /\ create_stamps one_image trj (radius (sum_params 1)) true use_index
          = Returns stamps
       /\ coadd (stamp_type (sum_params 1)) stamps = Returns coadded
       /\ filter_stamp coadded (sum_params 1) = Returns rejected
       /\ mkRawImage 1 1 [NO_DATA]
          = (if rejected then mkRawImage 1 1 [NO_DATA] else coadded)
       /\ (stamp_sized coadded (sum_params 1) ->
           rejected = true <-> reject_condition coadded (sum_params 1)).
Proof.
  assert (get_coadded_stamps_cpu one_image [at_centre] [[]] (sum_params 1)
          = Returns [mkRawImage 1 1 [NO_DATA]]) as Hrun
    by (vm_compute; reflexivity).
  split; [reflexivity|]. split; [exact Hrun|]. split; [reflexivity|].
  exact (StampCreatorFacts.rejected_stamps_are_replaced
           one_image [at_centre] [[]] (sum_params 1)
           [mkRawImage 1 1 [NO_DATA]] 0 (mkRawImage 1 1 [NO_DATA])
           eq_refl Hrun eq_refl).
Defined.

(** C5, as the specification has it, fails: a peak whose offset from the
    centre equals [peak_offset_x] and [peak_offset_y] does not exceed them,
    no other test applies, and the stamp is rejected and replaced. *)
Lemma peak_at_allowed_offset_is_rejected :
  find_peak bright_5x5 true = mkIndex 3 3
  /\ filter_stamp bright_5x5 (sum_params 1) = Returns true
  /\ get_coadded_stamps_cpu one_image [at_centre] [[]] (sum_params 1)
     = Returns [mkRawImage 1 1 [NO_DATA]]
  /\ stamp_sized bright_5x5 (sum_params 1)
  /\ ~ specified_reject_condition bright_5x5 (sum_params 1).
Proof.
  assert (find_peak bright_5x5 true = mkIndex 3 3) as Hpeak
    by (vm_compute; reflexivity).
  split; [exact Hpeak|]. split; [vm_compute; reflexivity|].
  split; [vm_compute; reflexivity|]. split.
  - unfold stamp_sized. rewrite Hpeak.
    change (radius (sum_params 1)) with 2.
    change (width bright_5x5) with 5%nat.
    change (height bright_5x5) with 5%nat.
    repeat split; try reflexivity; simpl; lia.
  - unfold specified_reject_condition. rewrite Hpeak.
    intros [[H|H]|[[H _]|H]].
    + vm_compute in H. discriminate.
    + vm_compute in H. discriminate.
    + vm_compute in H. discriminate.
    + unfold moments_limit_reached in H.
      repeat destruct H as [H|H]; vm_compute in H; apply H; reflexivity.
Qed.

(** The same coadd asked with [use_gpu = true] from the library without
    the accelerator. *)
Lemma no_gpu_falls_back_to_cpu_witness :
  HAVE_CUDA = false
  /\ get_coadded_stamps one_image [at_centre] [[]] (sum_params 2) true
     = ([no_gpu_warning],
        get_coadded_stamps_cpu one_image [at_centre] [[]] (sum_params 2))
  /\ snd (get_coadded_stamps one_image [at_centre] [[]] (sum_params 2) true)
     = snd (get_coadded_stamps one_image [at_centre] [[]] (sum_params 2) false)
  /\ fst (get_coadded_stamps one_image [at_centre] [[]] (sum_params 2) false)
     = [].
Proof.
  split; [reflexivity|].
  apply (StampCreatorFacts.no_gpu_falls_back_to_cpu
           one_image [at_centre] [[]] (sum_params 2)).
  reflexivity.
Defined.

(** C9, as the specification has it, fails: without the accelerator the
    call with [use_gpu = true] raises when the CPU path raises, here on a
    [use_index] of two flags for a stack of one image. *)
Lemma no_gpu_call_can_raise :
  HAVE_CUDA = false
  /\ get_coadded_stamps one_image [at_centre] [[true; false]]
       (sum_params 2) true
     = ([no_gpu_warning], Throws use_index_error)
  /\ raises (snd (get_coadded_stamps one_image [at_centre] [[true; false]]
                    (sum_params 2) true)).
Proof.
  split; [reflexivity|]. split; [reflexivity|].
  exists use_index_error. reflexivity.
Qed.

End WithSpecImages.

End Examples.

(** * Further properties of the sources *)

(** ** The image stack *)

Module ImageStackMore.
Import ImageStack ImageStackFacts.

Lemma index_guard_in_range (s : t) (n : nat) :
  (n < img_count s)%nat -> index_guard s (Z.of_nat n) = false.
Proof.
  intros H. destruct (index_guard s (Z.of_nat n)) eqn:G; auto.
  apply index_guard_true in G. lia.
Qed.

Lemma nth_error_in_range {A : Type} (l : list A) (n : nat) (a : A) :
  nth_error l n = Some a -> (n < length l)%nat.
Proof. intros H. apply nth_error_Some. congruence. Qed.

Lemma get_zeroed_time_inside (s : t) (n : nat) (img img0 : LayeredImage) :
  nth_error (images s) n = Some img ->
  nth_error (images s) 0 = Some img0 ->
  get_zeroed_time s (Z.of_nat n) = Returns (obstime img - obstime img0)%Q.
Proof.
  intros Hn H0. pose proof (nth_error_in_range _ _ _ Hn) as Hlt.
  unfold get_zeroed_time. rewrite (index_guard_in_range s n Hlt).
  apply vector_at_nat in Hn. apply (vector_at_nat _ 0%nat) in H0.
  unfold at_index. simpl Z.of_nat in H0. now rewrite Hn, H0.
Qed.

(** X1.  For an index inside the stack the three accessors return image
    [i], its observation time, and its time minus that of image 0. *)
Theorem accessors_return_image (s : t) (n : nat) (img : LayeredImage) :
  nth_error (images s) n = Some img ->
  get_single_image s (Z.of_nat n) = Returns img
  /\ get_obstime s (Z.of_nat n) = Returns (obstime img)
  /\ exists img0,
       nth_error (images s) 0 = Some img0
       /\ get_zeroed_time s (Z.of_nat n)
          = Returns (obstime img - obstime img0)%Q.
Proof.
  intros Hn. pose proof (nth_error_in_range _ _ _ Hn) as Hlt.
  pose proof (index_guard_in_range s n Hlt) as G.
  assert (at_index s (Z.of_nat n) = Returns img) as Hat
    by now apply vector_at_nat.
  unfold get_single_image, get_obstime. rewrite G, Hat.
  repeat split; auto.
  destruct (nth_error (images s) 0) as [img0|] eqn:E0.
  - exists img0. split; auto. now apply get_zeroed_time_inside.
  - apply nth_error_None in E0. unfold img_count in Hlt. lia.
Qed.

Lemma bind_never_raises {A B : Type} (o : outcome A) (k : A -> outcome B) :
  ~ raises o -> (forall a, ~ raises (k a)) -> ~ raises (o <- o ;; k o).
Proof.
  intros Ho Hk. destruct o as [a|e|]; simpl.
  - apply Hk.
  - exfalso. apply Ho. now exists e.
  - unfold raises. intros [e' He]. discriminate.
Qed.

Lemma vector_at_never_raises {A : Type} (v : list A) (index : Z) :
  ~ raises (vector_at v index).
Proof.
  unfold vector_at, raises. intros [e He].
  destruct (index <? 0); [discriminate|].
  destruct (nth_error v (Z.to_nat index)); discriminate.
Qed.

Lemma Returns_never_raises {A : Type} (a : A) : ~ raises (Returns a).
Proof. intros [e He]. discriminate. Qed.

(** X2.  Each accessor throws [out_of_range] exactly for an index below 0
    or above the number of images; an index equal to the number of images
    is let through. *)
Theorem accessors_raise_iff (s : t) (index : Z) :
  let out := index < 0 \/ index > Z.of_nat (img_count s) in
  (get_single_image s index = Throws oob <-> out)
  /\ (get_obstime s index = Throws oob <-> out)
  /\ (get_zeroed_time s index = Throws oob <-> out)
  /\ (raises (get_single_image s index) -> out)
  /\ (raises (get_obstime s index) -> out)
  /\ (raises (get_zeroed_time s index) -> out).
Proof.
  intros out. subst out. rewrite <- index_guard_true.
  unfold get_single_image, get_obstime, get_zeroed_time.
  destruct (index_guard s index) eqn:G.
  - repeat split; auto.
  - assert (~ raises (at_index s index)) as H1
      by apply vector_at_never_raises.
    assert (~ raises (img <- at_index s index ;; Returns (obstime img))) as H2.
    { apply bind_never_raises; auto. intros a. apply Returns_never_raises. }
    assert (~ raises (img <- at_index s index ;;
                      img0 <- at_index s 0 ;;
                      Returns (obstime img - obstime img0)%Q)) as H3.
    { apply bind_never_raises; auto. intros a.
      apply bind_never_raises; [apply vector_at_never_raises|].
      intros b. apply Returns_never_raises. }
    repeat split; try discriminate; intros H; exfalso;
      try (apply H1; eexists; exact H);
      try (apply H2; eexists; exact H);
      try (apply H3; eexists; exact H); auto.
Qed.

Lemma build_zeroed_times_cons (s : t) (img0 : LayeredImage)
    (imgs : list LayeredImage) :
  images s = img0 :: imgs ->
  build_zeroed_times s
  = map (fun img => (obstime img - obstime img0)%Q) (images s).
Proof. unfold build_zeroed_times. intros ->. reflexivity. Qed.

Lemma get_zeroed_time_outside (s : t) (n : nat) (time : Q) :
  nth_error (images s) n = None ->
  get_zeroed_time s (Z.of_nat n) <> Returns time.
Proof.
  intros En H. unfold get_zeroed_time in H.
  destruct (index_guard s (Z.of_nat n)); [discriminate|].
  assert (at_index s (Z.of_nat n) = Undefined) as Hat.
  { unfold at_index, vector_at.
    assert ((Z.of_nat n <? 0) = false) as -> by (apply Z.ltb_ge; lia).
    now rewrite Nat2Z.id, En. }
  rewrite Hat in H. discriminate.
Qed.

(** X3.  [build_zeroed_times] has one entry per image, and its entry [i]
    is what [get_zeroed_time(i)] returns; outside the stack neither has a
    value. *)
Theorem build_zeroed_times_agrees (s : t) :
  length (build_zeroed_times s) = img_count s
  /\ forall n time,
       nth_error (build_zeroed_times s) n = Some time
       <-> get_zeroed_time s (Z.of_nat n) = Returns time.
Proof.
  destruct (images s) as [|img0 imgs] eqn:E.
  - unfold build_zeroed_times, img_count. rewrite E. split; auto.
    intros n time. split.
    + destruct n; discriminate.
    + intros H. exfalso. apply (get_zeroed_time_outside s n time); auto.
      rewrite E. destruct n; reflexivity.
  - rewrite (build_zeroed_times_cons s img0 imgs E). unfold img_count.
    split; [apply length_map|].
    intros n time. rewrite nth_error_map.
    destruct (nth_error (images s) n) as [img|] eqn:En; simpl.
    + rewrite (get_zeroed_time_inside s n img img0 En)
        by (rewrite E; reflexivity).
      split; congruence.
    + split; [discriminate|]. intros H. exfalso.
      now apply (get_zeroed_time_outside s n time).
Qed.

(** *** make_global_mask *)

(** What [make_global_mask] returns on a stack with well-formed masks. *)
Lemma make_global_mask_returns (s : t) (flags threshold : Z) :
  masks_well_formed s ->
  exists gm,
    make_global_mask s flags threshold = Returns gm
    /\ width gm = get_width s
    /\ height gm = get_height s
    /\ length (pixels gm) = get_npixels s
    /\ forall p, (p < get_npixels s)%nat ->
         nth p (pixels gm) 0%Q
         = if masked_count s flags p <? threshold then 0%Q else 1%Q.
Proof.
  intros Hwf. unfold make_global_mask.
  rewrite (masks_in_bounds_wf s Hwf).
  eexists. split; [reflexivity|]. simpl.
  destruct (threshold_pixels_spec threshold
              (count_masks flags (get_npixels s) (images s))
              (repeat 0%Q (get_width s * get_height s)) (get_npixels s))
    as [Hlen Hnth].
  { rewrite repeat_length, npixels_width_height. lia. }
  repeat split; auto.
  - now rewrite Hlen, repeat_length, npixels_width_height.
  - intros p Hp. rewrite Hnth by assumption.
    now rewrite count_masks_spec.
Qed.

Lemma masked_count_bounds (s : t) (flags : Z) (p : nat) :
  0 <= masked_count s flags p <= Z.of_nat (img_count s).
Proof.
  unfold masked_count, img_count. split; [lia|].
  apply inj_le, filter_length_le.
Qed.

Lemma masked_count_no_flags (s : t) (p : nat) : masked_count s 0 p = 0.
Proof.
  unfold masked_count.
  assert (filter (fun img => has_flags 0 (nth p (pixels (mask img)) 0%Q))
            (images s) = []) as ->; auto.
  induction (images s) as [|img imgs IH]; auto.
Qed.

(** X4.  The extreme thresholds: with a threshold of 0 or less every pixel
    of the global mask is 1; with a threshold above the number of images, or
    with no flag at all and a positive threshold, every pixel is 0. *)
Theorem make_global_mask_extremes (s : t) (flags threshold : Z) :
  masks_well_formed s ->
  exists gm,
    make_global_mask s flags threshold = Returns gm
    /\ length (pixels gm) = get_npixels s
    /\ (threshold <= 0 -> pixels gm = repeat 1%Q (get_npixels s))
    /\ (Z.of_nat (img_count s) < threshold ->
        pixels gm = repeat 0%Q (get_npixels s))
    /\ (flags = 0 -> 0 < threshold ->
        pixels gm = repeat 0%Q (get_npixels s)).
Proof.
  intros Hwf.
  destruct (make_global_mask_returns s flags threshold Hwf)
    as (gm & Hret & _ & _ & Hlen & Hpix).
  exists gm. split; auto. split; auto.
  assert (forall v : Q,
            (forall p, (p < get_npixels s)%nat ->
               (if masked_count s flags p <? threshold then 0%Q else 1%Q) = v) ->
            pixels gm = repeat v (get_npixels s)) as Hall.
  { intros v Hv. apply (nth_ext _ _ 0%Q 0%Q).
    - now rewrite repeat_length.
    - intros p Hp. rewrite Hlen in Hp.
      rewrite nth_repeat_lt by assumption.
      rewrite Hpix by assumption. now apply Hv. }
  repeat split.
  - intros Ht. apply Hall. intros p _.
    pose proof (masked_count_bounds s flags p).
    now assert ((masked_count s flags p <? threshold) = false) as ->
      by (apply Z.ltb_ge; lia).
  - intros Ht. apply Hall. intros p _.
    pose proof (masked_count_bounds s flags p).
    now assert ((masked_count s flags p <? threshold) = true) as ->
      by (apply Z.ltb_lt; lia).
  - intros -> Ht. apply Hall. intros p _.
    rewrite masked_count_no_flags.
    now assert ((0 <? threshold) = true) as -> by now apply Z.ltb_lt.
Qed.

(** X5.  The global mask is binary, and raising the threshold only clears
    pixels: a pixel that is 1 for the threshold [t2] is 1 for every
    threshold [t1 <= t2]. *)
Theorem make_global_mask_monotone (s : t) (flags t1 t2 : Z) :
  masks_well_formed s -> t1 <= t2 ->
  exists gm1 gm2,
    make_global_mask s flags t1 = Returns gm1
    /\ make_global_mask s flags t2 = Returns gm2
    /\ forall p, (p < get_npixels s)%nat ->
         (nth p (pixels gm2) 0%Q = 0%Q \/ nth p (pixels gm2) 0%Q = 1%Q)
         /\ (nth p (pixels gm2) 0%Q = 1%Q -> nth p (pixels gm1) 0%Q = 1%Q).
Proof.
  intros Hwf Hle.
  destruct (make_global_mask_returns s flags t1 Hwf)
    as (gm1 & Hret1 & _ & _ & _ & Hpix1).
  destruct (make_global_mask_returns s flags t2 Hwf)
    as (gm2 & Hret2 & _ & _ & _ & Hpix2).
  exists gm1, gm2. repeat split; auto;
    rewrite ?Hpix1, ?Hpix2 by assumption.
  - destruct (masked_count s flags p <? t2); auto.
  - destruct (masked_count s flags p <? t2) eqn:E2; [discriminate|].
    intros _. apply Z.ltb_ge in E2.
    now assert ((masked_count s flags p <? t1) = false) as ->
      by (apply Z.ltb_ge; lia).
Qed.

(** X6.  On a stack that keeps the size invariant, with well-formed
    layers, [make_global_mask] reads no mask out of bounds: it returns. *)
Theorem make_global_mask_defined (s : t) (flags threshold : Z) :
  same_size s -> layers_well_formed s ->
  masks_well_formed s
  /\ exists gm, make_global_mask s flags threshold = Returns gm.
Proof.
  intros Hsame Hlay.
  assert (masks_well_formed s) as Hwf.
  { intros img Hin. destruct (Hlay img Hin) as (Hwf & Hw & Hh).
    rewrite Hwf, Hw, Hh. unfold get_npixels.
    destruct (images s) as [|img0 imgs] eqn:E; [destruct Hin|].
    destruct (Hsame img img0) as [H1 H2];
      try (rewrite E; simpl; auto; fail); auto.
    unfold li_get_npixels. unfold li_get_width, li_get_height in *.
    now rewrite H1, H2. }
  split; auto.
  destruct (make_global_mask_returns s flags threshold Hwf) as (gm & H & _).
  now exists gm.
Qed.

End ImageStackMore.

(** ** The result list of the search *)

Module KBMOSearchMore.
Import KBMOSearch KBMOSearchFacts.

Lemma erase_remove_if_In {A : Type} (pred : A -> bool) (v : list A) (a : A) :
  In a (erase_remove_if pred v) <-> In a v /\ pred a = false.
Proof.
  unfold erase_remove_if. rewrite filter_In, negb_true_iff. tauto.
Qed.

Lemma erase_remove_if_sorted {A : Type} (R : A -> A -> Prop)
    (pred : A -> bool) (v : list A) :
  StronglySorted R v -> StronglySorted R (erase_remove_if pred v).
Proof.
  unfold erase_remove_if. induction 1 as [|a l Hs IH Hall]; simpl.
  - constructor.
  - destruct (negb (pred a)); auto. constructor; auto.
    apply Forall_forall. intros b Hb. apply filter_In in Hb as [Hb _].
    rewrite Forall_forall in Hall. auto.
Qed.

Lemma filter_none {A : Type} (f : A -> bool) (l : list A) :
  Forall (fun a => f a = false) l -> filter f l = [].
Proof.
  induction 1 as [|a l Ha _ IH]; simpl; auto. now rewrite Ha.
Qed.

(** X7.  [filter_results] after [sortResults] keeps exactly the results
    with at least [min_observations] observations, and leaves them ordered
    by likelihood descending. *)
Theorem filter_results_keeps_order (results : list trajectory)
    (min_observations : Z) :
  let kept := filter_results (sortResults results) min_observations in
  (forall trj, In trj kept
               <-> In trj results
                   /\ min_observations <= Trajectory.obs_count trj)
  /\ StronglySorted lh_ge kept
  /\ (length kept <= length results)%nat.
Proof.
  intros kept. subst kept. unfold filter_results. split; [|split].
  - intros trj. rewrite erase_remove_if_In, Z.ltb_ge. split.
    + intros [H1 H2]. split; auto.
      eapply Permutation_in; [apply Permutation_sym|exact H1].
      apply insertion_sort_perm.
    + intros [H1 H2]. split; auto.
      eapply Permutation_in; [|exact H1]. apply insertion_sort_perm.
  - apply erase_remove_if_sorted, insertion_sort_sorted.
    + exact lh_ge_trans.
    + exact lh_greater_true.
    + exact lh_greater_false.
  - unfold erase_remove_if.
    rewrite (Permutation_length (insertion_sort_perm lh_greater results)).
    apply filter_length_le.
Qed.

(** X8.  On results sorted by likelihood descending, [filter_resultsLH]
    cuts a tail off: what it keeps is a prefix of the list, the results of
    likelihood at least [min_lh]. *)
Theorem filter_resultsLH_prefix (results : list trajectory) (min_lh : Q) :
  StronglySorted lh_ge results ->
  exists k,
    filter_resultsLH results min_lh = firstn k results
    /\ Forall (fun trj => (min_lh <= Trajectory.lh trj)%Q) (firstn k results)
    /\ Forall (fun trj => (Trajectory.lh trj < min_lh)%Q) (skipn k results).
Proof.
  unfold filter_resultsLH, erase_remove_if.
  induction 1 as [|a l Hs IH Hall].
  - exists 0%nat. simpl. auto.
  - simpl. destruct (Qltb (Trajectory.lh a) min_lh) eqn:E; simpl.
    + apply Qltb_true in E. exists 0%nat. simpl.
      assert (Forall (fun trj => (Trajectory.lh trj < min_lh)%Q) l) as Hlow.
      { eapply Forall_impl; [|exact Hall]. intros b Hb.
        eapply Qle_lt_trans; [exact Hb|exact E]. }
      repeat split; auto.
      apply filter_none. eapply Forall_impl; [|exact Hlow].
      intros b Hb. apply negb_false_iff. now apply Qltb_true.
    + apply Qltb_false in E. destruct IH as (k & Hk & Hhi & Hlo).
      exists (S k). simpl. rewrite Hk. repeat split; auto.
Qed.

(** [get_results] inside the list, for a count that is not negative. *)
Lemma get_results_returns (results : list trajectory) (start count : Z) :
  in_int (start + count) = true ->
  0 <= start <= Z.of_nat (length results) -> 0 <= count ->
  get_results results start count
  = Returns (firstn (Z.to_nat (Z.min count (Z.of_nat (length results) - start)))
                    (skipn (Z.to_nat start) results)).
Proof.
  intros Hsum [H0 HS] Hc. unfold get_results. rewrite Hsum. simpl negb.
  cbv iota. apply in_int_bounds in Hsum.
  set (S := Z.of_nat (length results)) in *.
  assert ((start <? 0) = false) as -> by now apply Z.ltb_ge.
  rewrite (to_size_t_small (start + count)) by lia.
  destruct (start + count >=? S) eqn:E; rewrite Z.geb_leb in E.
  - apply Z.leb_le in E.
    rewrite (to_size_t_small start), (to_size_t_small (S - start)) by lia.
    rewrite to_int_small by lia.
    rewrite vector_range_inside by (fold S; lia).
    rewrite Z.min_r by lia. do 3 f_equal. lia.
  - apply Z.leb_gt in E.
    rewrite vector_range_inside by (fold S; lia).
    rewrite Z.min_l by lia. do 3 f_equal. lia.
Qed.

(** X9.  After [sortResults], [get_results(0, 1)] returns one result, and
    it is a result of the highest likelihood. *)
Theorem best_result_is_first (results : list trajectory) :
  results <> [] ->
  exists top,
    get_results (sortResults results) 0 1 = Returns [top]
    /\ In top results
    /\ forall trj, In trj results -> lh_ge top trj.
Proof.
  intros Hne.
  pose proof (insertion_sort_perm lh_greater results) as Hperm.
  pose proof (insertion_sort_sorted lh_greater lh_ge lh_ge_trans
                lh_greater_true lh_greater_false results) as Hsorted.
  fold (sortResults results) in Hperm, Hsorted.
  destruct (sortResults results) as [|top rest] eqn:E.
  { apply Permutation_sym, Permutation_nil in Hperm. contradiction. }
  exists top. split; [|split].
  - rewrite get_results_returns; try reflexivity; simpl length; try lia.
    assert (Z.min 1 (Z.of_nat (S (length rest)) - 0) = 1) as -> by lia.
    reflexivity.
  - eapply Permutation_in; [apply Permutation_sym; exact Hperm|]. now left.
  - intros trj Hin. apply (Permutation_in _ Hperm) in Hin.
    destruct Hin as [<-|Hin].
    + unfold lh_ge. apply Qle_refl.
    + inversion Hsorted as [|a l _ Hall]; subst.
      rewrite Forall_forall in Hall. auto.
Qed.

(** X10.  Two calls page through the list: the first [k] results and the
    [S - k] results from index [k] on make up the whole list. *)
Theorem get_results_pages (results : list trajectory) (k : Z) :
  Z.of_nat (length results) <= INT_MAX ->
  0 <= k <= Z.of_nat (length results) ->
  exists page1 page2,
    get_results results 0 k = Returns page1
    /\ get_results results k (Z.of_nat (length results) - k) = Returns page2
    /\ Z.of_nat (length page1) = k
    /\ page1 ++ page2 = results.
Proof.
  intros Hmax Hk. set (S := Z.of_nat (length results)) in *.
  assert (INT_MIN <= 0) as Hmin by (unfold INT_MIN; lia).
  exists (firstn (Z.to_nat k) results), (skipn (Z.to_nat k) results).
  repeat split.
  - rewrite get_results_returns; try lia.
    + fold S. rewrite Z.sub_0_r, Z.min_l by lia. reflexivity.
    + apply in_int_bounds. lia.
  - rewrite get_results_returns; try lia.
    + fold S. rewrite Z.min_id. apply f_equal, firstn_all2.
      rewrite length_skipn. lia.
    + apply in_int_bounds. lia.
  - rewrite length_firstn. lia.
  - apply firstn_skipn.
Qed.

(** X11.  [get_results] never reads outside the results.  For [int]
    arguments whose sum is an [int], over a list that an [int] can count,
    the call throws the error of its check on [start], or it throws the
    [std::length_error] of the vector constructor, or it returns a
    contiguous part of the results that begins at index [start]. *)
Theorem get_results_stays_inside (results : list trajectory)
    (start count : Z) :
  in_int start = true -> in_int count = true ->
  in_int (start + count) = true ->
  Z.of_nat (length results) <= INT_MAX ->
  get_results results start count = Throws start_error
  \/ get_results results start count = Throws max_size_error
  \/ exists before page after,
       get_results results start count = Returns page
       /\ results = before ++ page ++ after
       /\ Z.of_nat (length before) = start.
Proof.
  intros Hs Hc Hsum Hmax.
  destruct (get_results_cases results start count Hs Hc Hsum)
    as (Hneg & Hpast & Hrev & Hslice & Hall).
  set (S := Z.of_nat (length results)) in *.
  destruct (Z_lt_le_dec start 0) as [|H0]; [left; auto|].
  destruct (Z_lt_le_dec S start) as [|HS]; [right; left; auto|].
  assert (Z.of_nat (length (firstn (Z.to_nat start) results)) = start)
    as Hbefore by (rewrite length_firstn; lia).
  destruct (Z_lt_le_dec count 0) as [Hcn|Hcp].
  - destruct (Z_lt_le_dec (start + count) 0) as [Hsn|Hsp].
    + right; right.
      exists (firstn (Z.to_nat start) results),
             (skipn (Z.to_nat start) results), [].
      split; [apply Hall; auto; lia|]. split; auto.
      now rewrite app_nil_r, firstn_skipn.
    + right; left. apply Hrev; auto; lia.
  - right; right.
    set (n := Z.to_nat (Z.min count (S - start))).
    exists (firstn (Z.to_nat start) results),
           (firstn n (skipn (Z.to_nat start) results)),
           (skipn n (skipn (Z.to_nat start) results)).
    split; [apply Hslice; auto; lia|]. split; auto.
    now rewrite !firstn_skipn.
Qed.

(** *** createCurves *)

Lemma NO_DATA_not_zero : ~ (0 == NO_DATA)%Q.
Proof. intros H. vm_compute in H. discriminate. Qed.

(** X12.  A light curve has one sample per image.  The sample of image [i]
    is the pixel of that image at [curve_pixel], unless that pixel is the
    sentinel [NO_DATA]: then the sample is 0.  So no sample of a light
    curve is [NO_DATA]. *)
Theorem createCurves_replaces_NO_DATA (s : t) (trj : trajectory)
    (imgs : list RawImage) (curve : list Q) :
  createCurves s trj imgs = Returns curve ->
  length curve = length imgs
  /\ forall i, (i < length imgs)%nat ->
       let p := curve_pixel s trj i in
       let v := get_pixel (nth i imgs (mkRawImage 0 0 [])) (fst p) (snd p) in
       ((v == NO_DATA)%Q -> nth i curve NO_DATA = 0%Q)
       /\ (~ (v == NO_DATA)%Q -> nth i curve NO_DATA = v)
       /\ ~ (nth i curve NO_DATA == NO_DATA)%Q.
Proof.
  unfold createCurves.
  destruct ((length (times s) <? length imgs)%nat
            || use_corr s && (length (bary_corrs s) <? length imgs)%nat);
    [discriminate|].
  intros [= <-]. split.
  - now rewrite length_map, length_seq.
  - intros i Hi. cbv zeta.
    set (p := curve_pixel s trj i).
    set (v := get_pixel (nth i imgs (mkRawImage 0 0 [])) (fst p) (snd p)).
    set (f := fun i0 : nat =>
                let p0 := curve_pixel s trj i0 in
                let pix_val :=
                  get_pixel (nth i0 imgs (mkRawImage 0 0 [])) (fst p0) (snd p0) in
                if Qeq_bool pix_val NO_DATA then 0%Q else pix_val).
    assert (nth i (map f (seq 0 (length imgs))) NO_DATA = f i) as ->.
    { rewrite (nth_indep _ NO_DATA (f 0%nat))
        by now rewrite length_map, length_seq.
      rewrite map_nth, seq_nth by assumption. reflexivity. }
    unfold f. cbv zeta. fold p. fold v.
    destruct (Qeq_bool v NO_DATA) eqn:E.
    + apply Qeq_bool_eq in E. repeat split; auto.
      * intros H. contradiction.
      * intros H. apply NO_DATA_not_zero. exact H.
    + apply Qeq_bool_neq in E. repeat split; auto.
      intros H. contradiction.
Qed.

(** *** fillPsiAndphi_vects *)

Lemma firstn_snoc {A : Type} (l : list A) (k : nat) (a : A) :
  nth_error l k = Some a -> firstn (S k) l = firstn k l ++ [a].
Proof.
  revert k. induction l as [|b l IH]; intros [|k] H; simpl in *;
    try discriminate.
  - now injection H as ->.
  - now rewrite (IH k H).
Qed.

Lemma push_pixels_spec (k : nat) (psi_ref phi_ref : list Q)
    (vects : list Q * list Q) :
  (k <= length psi_ref)%nat -> (k <= length phi_ref)%nat ->
  push_pixels k psi_ref phi_ref vects
  = Returns (fst vects ++ firstn k psi_ref, snd vects ++ firstn k phi_ref).
Proof.
  unfold push_pixels. induction k as [|k IH]; intros H1 H2.
  - simpl. rewrite !app_nil_r. now destruct vects.
  - rewrite seq_S, fold_left_app. simpl fold_left at 1.
    rewrite IH by lia. simpl bind.
    destruct (nth_error psi_ref k) as [x|] eqn:Ex;
      [|apply nth_error_None in Ex; lia].
    destruct (nth_error phi_ref k) as [y|] eqn:Ey;
      [|apply nth_error_None in Ey; lia].
    rewrite (proj2 (vector_at_nat psi_ref k x) Ex).
    rewrite (proj2 (vector_at_nat phi_ref k y) Ey).
    rewrite (firstn_snoc _ _ _ Ex), (firstn_snoc _ _ _ Ey).
    simpl bind. simpl fst. simpl snd.
    now rewrite !app_assoc.
Qed.

Lemma push_images_spec (num_pixels n : nat) (psi_imgs phi_imgs : list RawImage)
    (vects : list Q * list Q) :
  (n <= length psi_imgs)%nat -> (n <= length phi_imgs)%nat ->
  Forall (fun img => (num_pixels <= length (pixels img))%nat)
         (psi_imgs ++ phi_imgs) ->
  push_images num_pixels psi_imgs phi_imgs n vects
  = Returns (fst vects ++ flat num_pixels (firstn n psi_imgs),
             snd vects ++ flat num_pixels (firstn n phi_imgs)).
Proof.
  intros H1 H2 Hall. unfold push_images.
  induction n as [|n IH].
  - simpl. unfold flat. simpl. rewrite !app_nil_r. now destruct vects.
  - rewrite seq_S, fold_left_app. simpl fold_left at 1.
    rewrite IH by lia. simpl bind.
    destruct (nth_error psi_imgs n) as [a|] eqn:Ea;
      [|apply nth_error_None in Ea; lia].
    destruct (nth_error phi_imgs n) as [b|] eqn:Eb;
      [|apply nth_error_None in Eb; lia].
    rewrite (proj2 (vector_at_nat psi_imgs n a) Ea).
    rewrite (proj2 (vector_at_nat phi_imgs n b) Eb). simpl bind.
    rewrite Forall_forall in Hall.
    rewrite push_pixels_spec.
    + simpl fst. simpl snd.
      rewrite (firstn_snoc _ _ _ Ea), (firstn_snoc _ _ _ Eb).
      unfold flat. rewrite !map_app, !concat_app. simpl.
      now rewrite !app_nil_r, !app_assoc.
    + apply Hall, in_or_app. left. eapply nth_error_In; eauto.
    + apply Hall, in_or_app. right. eapply nth_error_In; eauto.
Qed.

(** The entry [t * P + p] of a concatenation of lists of length [P]. *)
Lemma nth_concat_uniform {A : Type} (P : nat) (ls : list (list A))
    (n p : nat) (d : A) :
  Forall (fun l => length l = P) ls -> (p < P)%nat ->
  nth (n * P + p) (concat ls) d = nth p (nth n ls []) d.
Proof.
  assert (forall (B : Type) (b : B) k, nth k (@nil B) b = b) as Hnil
    by (intros B b [|k]; reflexivity).
  intros Hall Hp. revert n. induction Hall as [|l ls Hl _ IH]; intros n.
  - simpl concat. now rewrite !Hnil.
  - destruct n as [|n]; simpl.
    + apply app_nth1. lia.
    + rewrite app_nth2 by lia. rewrite <- (IH n). f_equal. lia.
Qed.

Lemma length_concat_uniform {A : Type} (P : nat) (ls : list (list A)) :
  Forall (fun l => length l = P) ls ->
  length (concat ls) = (length ls * P)%nat.
Proof.
  induction 1 as [|l ls Hl _ IH]; simpl; auto.
  rewrite length_app. lia.
Qed.

Lemma all_of_size_pixels (P : nat) (imgs : list RawImage) :
  all_of_size P imgs ->
  Forall (fun l => length l = P) (map pixels imgs)
  /\ flat P imgs = concat (map pixels imgs).
Proof.
  unfold all_of_size, flat. induction 1 as [|img imgs [Hwf Hn] _ [IH1 IH2]];
    simpl; auto.
  assert (length (pixels img) = P) as Hlen
    by (unfold raw_wf, raw_get_npixels in *; congruence).
  split; [now constructor|].
  rewrite IH2, firstn_all2 by lia. reflexivity.
Qed.

Lemma all_of_size_asserts (P : nat) (imgs : list RawImage) :
  all_of_size P imgs ->
  forallb (fun img => (raw_get_npixels img =? P)%nat) imgs = true.
Proof.
  intros H. apply forallb_forall. intros img Hin.
  unfold all_of_size in H. rewrite Forall_forall in H.
  apply Nat.eqb_eq. now apply H.
Qed.

(** X14.  For [N >= 1] psi images and as many phi images, all of [P]
    pixels, no assertion fails and the two vectors hold the images one after
    the other: [N * P] values each, the pixel [p] of image [t] at index
    [t * P + p]. *)
Theorem fillPsiAndphi_vects_layout (P : nat) (psi_imgs phi_imgs : list RawImage) :
  psi_imgs <> [] -> length phi_imgs = length psi_imgs ->
  all_of_size P psi_imgs -> all_of_size P phi_imgs ->
  exists psi_vect phi_vect,
    fillPsiAndphi_vects psi_imgs phi_imgs
    = Some (Returns (psi_vect, phi_vect))
    /\ length psi_vect = (length psi_imgs * P)%nat
    /\ length phi_vect = (length psi_imgs * P)%nat
    /\ forall n p, (n < length psi_imgs)%nat -> (p < P)%nat ->
         nth (n * P + p) psi_vect NO_DATA
         = nth p (pixels (nth n psi_imgs (mkRawImage 0 0 []))) NO_DATA
         /\ nth (n * P + p) phi_vect NO_DATA
            = nth p (pixels (nth n phi_imgs (mkRawImage 0 0 []))) NO_DATA.
Proof.
  intros Hne Hlen Hpsi Hphi.
  destruct (all_of_size_pixels P psi_imgs Hpsi) as [Hl1 Hf1].
  destruct (all_of_size_pixels P phi_imgs Hphi) as [Hl2 Hf2].
  exists (concat (map pixels psi_imgs)), (concat (map pixels phi_imgs)).
  split; [|split; [|split]].
  - unfold fillPsiAndphi_vects, fill_asserts.
    destruct psi_imgs as [|img0 rest] eqn:E; [contradiction|].
    rewrite <- E in *.
    assert (raw_get_npixels img0 = P) as HP.
    { unfold all_of_size in Hpsi. rewrite Forall_forall in Hpsi.
      apply Hpsi. rewrite E. now left. }
    rewrite HP, (all_of_size_asserts P psi_imgs Hpsi),
      (all_of_size_asserts P phi_imgs Hphi).
    assert ((0 <? length psi_imgs)%nat = true) as ->
      by (apply Nat.ltb_lt; rewrite E; simpl; lia).
    assert ((length phi_imgs =? length psi_imgs)%nat = true) as ->
      by now apply Nat.eqb_eq.
    simpl andb. cbv iota.
    rewrite push_images_spec; try lia.
    + rewrite firstn_all, <- Hlen, firstn_all, Hf1, Hf2. reflexivity.
    + apply Forall_app. unfold all_of_size in *. split.
      * eapply Forall_impl; [|exact Hpsi]. intros img [Hwf Hn].
        unfold raw_wf, raw_get_npixels in *. lia.
      * eapply Forall_impl; [|exact Hphi]. intros img [Hwf Hn].
        unfold raw_wf, raw_get_npixels in *. lia.
  - now rewrite (length_concat_uniform P _ Hl1), length_map.
  - now rewrite (length_concat_uniform P _ Hl2), length_map, Hlen.
  - intros n p Hn Hp.
    rewrite !(nth_concat_uniform P) by assumption.
    split; f_equal.
    + change (@nil Q) with (pixels (mkRawImage 0 0 [])). apply map_nth.
    + change (@nil Q) with (pixels (mkRawImage 0 0 [])). apply map_nth.
Qed.

(** *** computeImageScaling *)

Section ScalingFacts.
Variable compute_bounds : RawImage -> Q * Q.

Lemma scaling_width_pos (img : RawImage) :
  (min_width <= scaling_width compute_bounds img)%Q.
Proof.
  unfold scaling_width.
  destruct (Qltb _ min_width) eqn:E.
  - apply Qle_refl.
  - now apply Qltb_false.
Qed.

Lemma image_scaling_scale (encoding_bytes : Z) (img : RawImage) :
  let sp := image_scaling compute_bounds encoding_bytes img in
  (0 < scale sp)%Q
  /\ (encoding_bytes = 1 -> (scale sp * 255 == scaling_width compute_bounds img)%Q)
  /\ (encoding_bytes = 2 -> (scale sp * 65535 == scaling_width compute_bounds img)%Q)
  /\ (encoding_bytes <> 1 -> encoding_bytes <> 2 -> scale sp = 1%Q).
Proof.
  intros sp. subst sp. unfold image_scaling. simpl scale.
  fold (scaling_width compute_bounds img).
  pose proof (scaling_width_pos img) as Hw.
  assert (0 < scaling_width compute_bounds img)%Q as Hpos.
  { eapply Qlt_le_trans; [|exact Hw]. reflexivity. }
  destruct (Z.eqb_spec encoding_bytes 1) as [->|H1];
    [|destruct (Z.eqb_spec encoding_bytes 2) as [->|H2]]; simpl orb; cbv iota.
  - change (inject_Z (Z.shiftl 1 (8 * 1) - 1)) with 255%Q.
    repeat split; try lia.
    + apply Qlt_shift_div_l; [reflexivity|]. now rewrite Qmult_0_l.
    + intros _. rewrite Qmult_comm. apply Qmult_div_r. discriminate.
  - change (inject_Z (Z.shiftl 1 (8 * 2) - 1)) with 65535%Q.
    repeat split; try lia.
    + apply Qlt_shift_div_l; [reflexivity|]. now rewrite Qmult_0_l.
    + intros _. rewrite Qmult_comm. apply Qmult_div_r. discriminate.
  - repeat split; try contradiction; auto.
Qed.

(** X15.  [computeImageScaling] gives one set of parameters per image, with
    the bounds of the image and a scale that is never zero or negative: the
    width over 255 or 65535 for an encoding in 1 or 2 bytes, the width being
    at least 1e-6, and 1 for any other encoding. *)
Theorem computeImageScaling_scale_positive (vect : list RawImage)
    (encoding_bytes : Z) :
  let result := computeImageScaling compute_bounds vect encoding_bytes in
  length result = length vect
  /\ forall n img, nth_error vect n = Some img ->
       exists sp,
         nth_error result n = Some sp
         /\ min_val sp = fst (compute_bounds img)
         /\ max_val sp = snd (compute_bounds img)
         /\ (0 < scale sp)%Q
         /\ (encoding_bytes = 1 -> (scale sp * 255 == scaling_width compute_bounds img)%Q)
         /\ (encoding_bytes = 2 -> (scale sp * 65535 == scaling_width compute_bounds img)%Q)
         /\ (encoding_bytes <> 1 -> encoding_bytes <> 2 -> scale sp = 1%Q).
Proof.
  intros result. subst result. unfold computeImageScaling. split.
  - apply length_map.
  - intros n img Hn. exists (image_scaling compute_bounds encoding_bytes img).
    split; [now rewrite nth_error_map, Hn|].
    split; [reflexivity|]. split; [reflexivity|].
    apply image_scaling_scale.
Qed.

End ScalingFacts.

End KBMOSearchMore.

(** ** The stamps *)

Module StampCreatorMore.
Import StampCreator StampCreatorFacts.

Lemma mapM_all_return {A B : Type} (f : A -> outcome B) (g : A -> B)
    (l : list A) :
  (forall a, In a l -> f a = Returns (g a)) ->
  mapM f l = Returns (map g l).
Proof.
  induction l as [|a l IH]; intros H; simpl; auto.
  rewrite (H a) by now left. simpl.
  rewrite IH by (intros b Hb; apply H; now right). reflexivity.
Qed.

Lemma length_filter_map {A B : Type} (f : B -> bool) (g : A -> B)
    (l : list A) :
  length (filter f (map g l)) = length (filter (fun a => f (g a)) l).
Proof.
  induction l as [|a l IH]; simpl; auto.
  destruct (f (g a)); simpl; auto.
Qed.

Lemma count_selected (use_index : list bool) :
  length (filter (fun n => nth n use_index false)
            (seq 0 (length use_index)))
  = count_true use_index.
Proof.
  unfold count_true. induction use_index as [|b u IH]; auto.
  set (f := fun n => nth n (b :: u) false).
  change (seq 0 (length (b :: u))) with (0%nat :: seq 1 (length u)).
  rewrite <- seq_shift.
  assert (length (filter f (map S (seq 0 (length u))))
          = length (filter (fun b0 : bool => b0) u)) as Hrest.
  { rewrite length_filter_map. exact IH. }
  change (filter f (0%nat :: map S (seq 0 (length u))))
    with (if b then 0%nat :: filter f (map S (seq 0 (length u)))
          else filter f (map S (seq 0 (length u)))).
  change (filter (fun b0 : bool => b0) (b :: u))
    with (if b then b :: filter (fun b0 : bool => b0) u
          else filter (fun b0 : bool => b0) u).
  destruct b; simpl length; now rewrite Hrest.
Qed.

Section WithLib.
Context {lib : ImageLib}.

Lemma create_stamps_value (stack : ImageStack.t) (trj : trajectory)
    (radius : Z) (keep_no_data : bool) (use_index : list bool) :
  use_index = [] \/ length use_index = ImageStack.img_count stack ->
  create_stamps stack trj radius keep_no_data use_index
  = Returns (map (stamp_of stack trj radius keep_no_data)
               (filter (selected use_index)
                  (seq 0 (ImageStack.img_count stack)))).
Proof.
  intros Hsize. unfold create_stamps.
  assert ((0 <? length use_index)%nat
          && negb (length use_index =? ImageStack.img_count stack)%nat
          = false) as ->.
  { destruct Hsize as [-> | ->]; simpl; auto.
    rewrite Nat.eqb_refl. apply andb_false_r. }
  rewrite (mapM_all_return _
             (fun n => if selected use_index n
                       then [stamp_of stack trj radius keep_no_data n]
                       else [])).
  - simpl bind. f_equal.
    induction (seq 0 (ImageStack.img_count stack)) as [|n l IH]; simpl; auto.
    destruct (selected use_index n); simpl; now rewrite IH.
  - intros n Hn. apply in_seq in Hn. fold (selected use_index n).
    destruct (selected use_index n); auto.
    assert (n < length (ImageStack.images stack))%nat as Hlt
      by (unfold ImageStack.img_count in Hn; lia).
    destruct (nth_error (ImageStack.images stack) n) as [img|] eqn:En;
      [|apply nth_error_None in En; lia].
    destruct (nth_error (ImageStack.images stack) 0) as [img0|] eqn:E0;
      [|apply nth_error_None in E0; lia].
    rewrite (ImageStackMore.get_zeroed_time_inside stack n img img0 En E0).
    simpl bind.
    assert (ImageStack.get_single_image stack (Z.of_nat n) = Returns img)
      as ->.
    { unfold ImageStack.get_single_image.
      rewrite (ImageStackMore.index_guard_in_range stack n Hlt).
      now apply vector_at_nat. }
    simpl bind. unfold stamp_of.
    rewrite (nth_error_nth _ _ _ En), (nth_error_nth _ _ _ E0).
    reflexivity.
Qed.

(** X16.  [create_stamps] rejects a [use_index] that is neither empty nor
    as long as the stack; otherwise it returns one stamp per selected
    image, in the order of the images, each cut at the position of the
    trajectory at the image's zeroed time: all images for an empty
    [use_index], else the images whose flag is set. *)
Theorem create_stamps_selects (stack : ImageStack.t) (trj : trajectory)
    (radius : Z) (keep_no_data : bool) (use_index : list bool) :
  let N := ImageStack.img_count stack in
  (use_index <> [] /\ length use_index <> N ->
   create_stamps stack trj radius keep_no_data use_index
   = Throws use_index_error)
  /\ (use_index = [] \/ length use_index = N ->
      exists stamps,
        create_stamps stack trj radius keep_no_data use_index
        = Returns stamps
        /\ stamps = map (stamp_of stack trj radius keep_no_data)
                      (filter (selected use_index) (seq 0 N))
        /\ length stamps
           = match use_index with [] => N | _ => count_true use_index end).
Proof.
  intros N. split.
  - intros [Hne Hlen]. unfold create_stamps.
    assert ((0 <? length use_index)%nat = true) as ->.
    { apply Nat.ltb_lt. destruct use_index; [contradiction|simpl; lia]. }
    assert ((length use_index =? ImageStack.img_count stack)%nat = false)
      as -> by now apply Nat.eqb_neq.
    reflexivity.
  - intros Hsize. eexists. split; [now apply create_stamps_value|].
    split; [reflexivity|]. rewrite length_map. fold N.
    destruct use_index as [|b u] eqn:E.
    + unfold selected. simpl.
      rewrite forallb_filter_id; [apply length_seq|].
      apply forallb_forall. auto.
    + destruct Hsize as [Hsize|Hsize]; [discriminate|].
      rewrite <- Hsize, <- count_selected. f_equal.
Qed.

(** X17.  [get_stamps] never fails on account of [use_index]: it returns
    one stamp for every image of the stack, with invalid pixels replaced
    ([keep_no_data = false]). *)
Theorem get_stamps_one_per_image (stack : ImageStack.t) (trj : trajectory)
    (radius : Z) :
  exists stamps,
    get_stamps stack trj radius = Returns stamps
    /\ length stamps = ImageStack.img_count stack
    /\ forall n, (n < ImageStack.img_count stack)%nat ->
         nth_error stamps n = Some (stamp_of stack trj radius false n).
Proof.
  unfold get_stamps. rewrite create_stamps_value by now left.
  assert (filter (selected []) (seq 0 (ImageStack.img_count stack))
          = seq 0 (ImageStack.img_count stack)) as ->.
  { apply forallb_filter_id. apply forallb_forall. auto. }
  eexists. split; [reflexivity|]. split.
  - now rewrite length_map, length_seq.
  - intros n Hn. rewrite nth_error_map.
    rewrite (nth_error_nth' _ 0%nat) by now rewrite length_seq.
    now rewrite seq_nth.
Qed.

(** The first steps of a round of [get_coadded_stamps_cpu] that
    returns. *)
Lemma coadd_one_steps (stack : ImageStack.t) (t_array : list trajectory)
    (use_index_vect : list (list bool)) (params : StampParameters) (n : nat)
    (r : RawImage) :
  coadd_one stack t_array use_index_vect params n = Returns r ->
  exists trj use_index stamps coadded,
    nth_error t_array n = Some trj
    /\ nth_error use_index_vect n = Some use_index
    /\ create_stamps stack trj (radius params) true use_index = Returns stamps
    /\ coadd (stamp_type params) stamps = Returns coadded
    /\ (do_filtering params = false -> r = coadded).
Proof.
  unfold coadd_one.
  destruct (vector_at t_array (Z.of_nat n)) as [trj| |] eqn:E1;
    simpl; try discriminate.
  destruct (vector_at use_index_vect (Z.of_nat n)) as [use_index| |] eqn:E2;
    simpl; try discriminate.
  destruct (create_stamps stack trj (radius params) true use_index)
    as [stamps| |] eqn:E3; simpl; try discriminate.
  destruct (coadd (stamp_type params) stamps) as [coadded| |] eqn:E4;
    simpl; try discriminate.
  intros H. apply vector_at_nat in E1, E2.
  exists trj, use_index, stamps, coadded. repeat split; auto.
  intros Hf. rewrite Hf in H. simpl in H. congruence.
Qed.

Lemma mapM_returns {A B : Type} (f : A -> outcome B) (l : list A) :
  (forall a, In a l -> exists b, f a = Returns b) ->
  exists bs, mapM f l = Returns bs.
Proof.
  induction l as [|a l IH]; intros H; simpl.
  - now exists [].
  - destruct (H a) as [b Hb]; [now left|]. rewrite Hb. simpl.
    destruct IH as [bs Hbs]; [intros c Hc; apply H; now right|].
    rewrite Hbs. simpl. now exists (b :: bs).
Qed.

(** A round of the loop returns when the trajectory has a [use_index] of
    the right size, the stamp type is one of the three and no filtering is
    asked for. *)
Lemma coadd_one_returns_unfiltered (stack : ImageStack.t)
    (t_array : list trajectory) (use_index_vect : list (list bool))
    (params : StampParameters) (n : nat) :
  (n < length t_array)%nat ->
  length use_index_vect = length t_array ->
  Forall (fun u => u = [] \/ length u = ImageStack.img_count stack)
         use_index_vect ->
  (forall v, stamp_type params <> STAMP_other v) ->
  do_filtering params = false ->
  exists r, coadd_one stack t_array use_index_vect params n = Returns r.
Proof.
  intros Hn Hlen Hsizes Htype Hf. unfold coadd_one.
  destruct (nth_error t_array n) as [trj|] eqn:E1;
    [|apply nth_error_None in E1; lia].
  destruct (nth_error use_index_vect n) as [u|] eqn:E2;
    [|apply nth_error_None in E2; lia].
  rewrite (proj2 (vector_at_nat t_array n trj) E1).
  rewrite (proj2 (vector_at_nat use_index_vect n u) E2). simpl bind.
  rewrite Forall_forall in Hsizes.
  rewrite create_stamps_value by (apply Hsizes; eapply nth_error_In; eauto).
  simpl bind. rewrite Hf.
  destruct (stamp_type params) eqn:Et; simpl; eauto.
  exfalso. eapply Htype. reflexivity.
Qed.

(** X18.  With no trajectory [get_coadded_stamps_cpu] returns the empty
    vector whatever the parameters are; when it returns, it returns one
    stamp per trajectory; and it does return when every trajectory has a
    [use_index], each empty or as long as the stack, the stamp type is one
    of the three and no filtering is asked for. *)
Theorem get_coadded_stamps_cpu_one_per_trajectory (stack : ImageStack.t)
    (t_array : list trajectory) (use_index_vect : list (list bool))
    (params : StampParameters) :
  get_coadded_stamps_cpu stack [] use_index_vect params = Returns []
  /\ (forall results,
        get_coadded_stamps_cpu stack t_array use_index_vect params
        = Returns results ->
        length results = length t_array)
  /\ (length use_index_vect = length t_array ->
      Forall (fun u => u = [] \/ length u = ImageStack.img_count stack)
             use_index_vect ->
      (forall v, stamp_type params <> STAMP_other v) ->
      do_filtering params = false ->
      exists results,
        get_coadded_stamps_cpu stack t_array use_index_vect params
        = Returns results
        /\ length results = length t_array).
Proof.
  assert (forall results,
            get_coadded_stamps_cpu stack t_array use_index_vect params
            = Returns results ->
            length results = length t_array) as Hone.
  { intros results Hres. unfold get_coadded_stamps_cpu in Hres.
    now apply mapM_seq_returns in Hres as [Hlen _]. }
  split; [reflexivity|]. split; [exact Hone|].
  intros Hlen Hsizes Htype Hf.
  destruct (mapM_returns (coadd_one stack t_array use_index_vect params)
              (seq 0 (length t_array))) as [results Hres].
  { intros n Hin. apply in_seq in Hin.
    apply coadd_one_returns_unfiltered; auto. lia. }
  exists results. split; [exact Hres|]. now apply Hone.
Qed.

(** X19.  Without filtering, the mean (median) coadd that
    [get_coadded_stamps_cpu] returns for a trajectory is what
    [get_mean_stamp] ([get_median_stamp]) returns for that trajectory and
    its [use_index]. *)
Theorem coadded_stamps_are_single_stamps (stack : ImageStack.t)
    (t_array : list trajectory) (use_index_vect : list (list bool))
    (params : StampParameters) (results : list RawImage) (n : nat)
    (r : RawImage) :
  do_filtering params = false ->
  get_coadded_stamps_cpu stack t_array use_index_vect params
  = Returns results ->
  nth_error results n = Some r ->
  exists trj use_index,
    nth_error t_array n = Some trj
    /\ nth_error use_index_vect n = Some use_index
    /\ (stamp_type params = STAMP_MEAN ->
        get_mean_stamp stack trj (radius params) use_index = Returns r)
    /\ (stamp_type params = STAMP_MEDIAN ->
        get_median_stamp stack trj (radius params) use_index = Returns r).
Proof.
  intros Hf Hres Hn. unfold get_coadded_stamps_cpu in Hres.
  apply mapM_seq_returns in Hres as [_ Hnth].
  specialize (Hnth n r Hn). simpl in Hnth.
  destruct (coadd_one_steps _ _ _ _ _ _ Hnth)
    as (trj & use_index & stamps & coadded & H1 & H2 & H3 & H4 & H5).
  specialize (H5 Hf). subst coadded.
  exists trj, use_index. repeat split; auto; intros Ht;
    rewrite Ht in H4; unfold get_mean_stamp, get_median_stamp;
    rewrite H3; simpl in *; exact H4.
Qed.

(** X20.  An allowed peak offset of 0 or less rejects every stamp, whatever
    it holds; with filtering enabled every stamp that
    [get_coadded_stamps_cpu] returns is then the 1x1 [NO_DATA] image. *)
Theorem zero_peak_offset_rejects_all (stack : ImageStack.t)
    (t_array : list trajectory) (use_index_vect : list (list bool))
    (params : StampParameters) :
  (peak_offset_x params <= 0)%Q \/ (peak_offset_y params <= 0)%Q ->
  (forall img, filter_stamp img params = Returns true)
  /\ (do_filtering params = true ->
      forall results,
        get_coadded_stamps_cpu stack t_array use_index_vect params
        = Returns results ->
        results = repeat (mkRawImage 1 1 [NO_DATA]) (length t_array)).
Proof.
  intros Hoff.
  assert (forall img, filter_stamp img params = Returns true) as Hrej.
  { intros img. unfold filter_stamp.
    assert (peak_off_centre (find_peak img true) params = true) as ->; auto.
    apply peak_off_centre_true. unfold peak_offset_reached.
    assert (forall z, (0 <= inject_Z (Z.abs z))%Q) as Habs.
    { intros z. rewrite <- (Zle_Qle 0). apply Z.abs_nonneg. }
    destruct Hoff as [H|H]; [left|right];
      (eapply Qle_trans; [exact H|apply Habs]). }
  split; auto.
  intros Hf results Hres. unfold get_coadded_stamps_cpu in Hres.
  apply mapM_seq_returns in Hres as [Hlen Hnth].
  apply (nth_ext _ _ (mkRawImage 0 0 []) (mkRawImage 0 0 [])).
  - now rewrite repeat_length.
  - intros n Hn. rewrite nth_repeat_lt by lia.
    destruct (nth_error results n) as [r|] eqn:Er;
      [|apply nth_error_None in Er; lia].
    rewrite (nth_error_nth _ _ _ Er).
    specialize (Hnth n r Er). simpl in Hnth.
    destruct (coadd_one_returns _ _ _ _ _ _ Hf Hnth)
      as (trj & use_index & stamps & coadded & rejected
          & _ & _ & _ & _ & H5 & H6).
    rewrite Hrej in H5. injection H5 as <-. exact H6.
Qed.

End WithLib.

End StampCreatorMore.

(** ** The trajectory list on the host *)

Module TrajectoryListMore.
Import TrajectoryList.

(** X21.  On the host, [set_trajectory] at an index inside the list
    followed by [get_trajectory] at that index gives the new value back;
    the other entries, the size and the ownership flag stay as they
    were. *)
Theorem set_then_get (l : t) (index : Z) (new_value : trajectory) :
  data_on_gpu l = false ->
  0 <= index <= max_size l ->
  index < Z.of_nat (length (cpu_list l)) ->
  exists l',
    set_trajectory l index new_value = (Returns tt, l')
    /\ get_trajectory l' index = (Returns new_value, l')
    /\ max_size l' = max_size l
    /\ data_on_gpu l' = false
    /\ length (cpu_list l') = length (cpu_list l)
    /\ forall other, other <> index ->
         fst (get_trajectory l' other) = fst (get_trajectory l other).
Proof.
  intros Hcpu [H0 Hmax] Hlen.
  assert ((index <? 0) || (index >? max_size l) = false) as Hguard.
  { apply orb_false_iff. split; [apply Z.ltb_ge; lia|].
    rewrite Z.gtb_ltb. apply Z.ltb_ge. lia. }
  exists (mk (max_size l) (data_on_gpu l)
            (set_at (cpu_list l) (Z.to_nat index) new_value)).
  split; [|split; [|split; [|split; [|split]]]].
  - unfold set_trajectory. rewrite Hguard, Hcpu.
    assert ((Z.to_nat index <? length (cpu_list l))%nat = true) as ->
      by (apply Nat.ltb_lt; lia).
    reflexivity.
  - unfold get_trajectory. simpl. rewrite Hguard, Hcpu. f_equal.
    unfold vector_at.
    assert ((index <? 0) = false) as -> by now apply Z.ltb_ge.
    rewrite (nth_error_nth' _ new_value)
      by (rewrite length_set_at; lia).
    rewrite nth_set_at_same by lia. reflexivity.
  - reflexivity.
  - exact Hcpu.
  - apply length_set_at.
  - intros other Hother. unfold get_trajectory. simpl. rewrite Hcpu.
    destruct ((other <? 0) || (other >? max_size l)) eqn:G; auto. simpl.
    apply orb_false_iff in G as [G _]. apply Z.ltb_ge in G.
    unfold vector_at.
    assert ((other <? 0) = false) as -> by now apply Z.ltb_ge.
    destruct (Nat.ltb_spec (Z.to_nat other) (length (cpu_list l))) as [Hin|Hout].
    + rewrite !(nth_error_nth' _ new_value)
        by (rewrite ?length_set_at; lia).
      rewrite nth_set_at_other by lia. reflexivity.
    + assert (nth_error (cpu_list l) (Z.to_nat other) = None) as ->
        by now apply nth_error_None.
      assert (nth_error (set_at (cpu_list l) (Z.to_nat index) new_value)
                (Z.to_nat other) = None) as ->
        by (apply nth_error_None; now rewrite length_set_at).
      reflexivity.
Qed.

End TrajectoryListMore.

(** ** The further properties at concrete inputs *)

Module MoreExamples.
Import Fixtures.

Lemma masked_stack_wf : ImageStack.masks_well_formed masked_stack.
Proof. intros img [<-|[<-|[<-|[]]]]; reflexivity. Defined.

Lemma masked_stack_same_size : ImageStack.same_size masked_stack.
Proof. apply ImageStackFacts.same_sizeb_spec. reflexivity. Defined.

Lemma masked_stack_layers : ImageStack.layers_well_formed masked_stack.
Proof.
  intros img [<-|[<-|[<-|[]]]]; repeat split; reflexivity.
Defined.

(** The second of three images. *)
Lemma accessors_return_image_witness :
  nth_error (ImageStack.images masked_stack) 1
  = Some (with_mask [0; 3; 1; 2]%Q 1%Q)
  /\ ImageStack.get_obstime masked_stack 1 = Returns 1%Q
  /\ ImageStack.get_zeroed_time masked_stack 1 = Returns (1 - 0)%Q.
Proof.
  split; [reflexivity|].
  destruct (ImageStackMore.accessors_return_image masked_stack 1
              (with_mask [0; 3; 1; 2]%Q 1%Q) eq_refl)
    as (_ & Hobs & img0 & H0 & Hz).
  split; [exact Hobs|]. injection H0 as <-. exact Hz.
Defined.

(** The threshold 0 on three 2x2 images. *)
Lemma make_global_mask_extremes_witness :
  ImageStack.masks_well_formed masked_stack
  /\ exists gm,
       ImageStack.make_global_mask masked_stack 1 0 = Returns gm
       /\ pixels gm = [1; 1; 1; 1]%Q.
Proof.
  split; [exact masked_stack_wf|].
  destruct (ImageStackMore.make_global_mask_extremes masked_stack 1 0
              masked_stack_wf) as (gm & Hret & _ & Hones & _).
  exists gm. split; [exact Hret|]. apply Hones. lia.
Defined.

(** The thresholds 1 and 2 for the flag 1. *)
Lemma make_global_mask_monotone_witness :
  (ImageStack.masks_well_formed masked_stack /\ 1 <= 2)
  /\ exists gm1 gm2,
       ImageStack.make_global_mask masked_stack 1 1 = Returns gm1
       /\ ImageStack.make_global_mask masked_stack 1 2 = Returns gm2
       /\ (nth 1 (pixels gm2) 0%Q = 1%Q -> nth 1 (pixels gm1) 0%Q = 1%Q).
Proof.
  split; [split; [exact masked_stack_wf|lia]|].
  destruct (ImageStackMore.make_global_mask_monotone masked_stack 1 1 2
              masked_stack_wf ltac:(lia)) as (gm1 & gm2 & H1 & H2 & Hpix).
  exists gm1, gm2. split; [exact H1|]. split; [exact H2|].
  apply (Hpix 1%nat).
  change (ImageStack.get_npixels masked_stack) with 4%nat. lia.
Defined.

Lemma make_global_mask_defined_witness :
  (ImageStack.same_size masked_stack
   /\ ImageStack.layers_well_formed masked_stack)
  /\ exists gm, ImageStack.make_global_mask masked_stack 2 3 = Returns gm.
Proof.
  split; [split; [exact masked_stack_same_size|exact masked_stack_layers]|].
  apply (ImageStackMore.make_global_mask_defined masked_stack 2 3
           masked_stack_same_size masked_stack_layers).
Defined.

Lemma sorted_results_sorted :
  StronglySorted KBMOSearch.lh_ge sorted_results.
Proof.
  repeat constructor; unfold KBMOSearch.lh_ge, Qle; simpl; lia.
Defined.

(** Three sorted results cut at the likelihood 6. *)
Lemma filter_resultsLH_prefix_witness :
  StronglySorted KBMOSearch.lh_ge sorted_results
  /\ exists k,
       KBMOSearch.filter_resultsLH sorted_results 6%Q
       = firstn k sorted_results.
Proof.
  split; [exact sorted_results_sorted|].
  destruct (KBMOSearchMore.filter_resultsLH_prefix sorted_results 6%Q
              sorted_results_sorted) as (k & Hk & _).
  exists k. exact Hk.
Defined.

Lemma best_result_is_first_witness :
  [tied_low; best; tied_high] <> []
  /\ exists top,
       KBMOSearch.get_results
         (KBMOSearch.sortResults [tied_low; best; tied_high]) 0 1
       = Returns [top]
       /\ In top [tied_low; best; tied_high].
Proof.
  split; [discriminate|].
  destruct (KBMOSearchMore.best_result_is_first [tied_low; best; tied_high]
              ltac:(discriminate)) as (top & Hget & Hin & _).
  exists top. split; [exact Hget|exact Hin].
Defined.

Lemma get_results_pages_witness :
  (Z.of_nat (length sorted_results) <= INT_MAX
   /\ 0 <= 1 <= Z.of_nat (length sorted_results))
  /\ exists page1 page2,
       KBMOSearch.get_results sorted_results 0 1 = Returns page1
       /\ KBMOSearch.get_results sorted_results 1 (3 - 1) = Returns page2
       /\ page1 ++ page2 = sorted_results.
Proof.
  assert (Z.of_nat (length sorted_results) <= INT_MAX) as H1
    by (unfold INT_MAX; simpl; lia).
  assert (0 <= 1 <= Z.of_nat (length sorted_results)) as H2
    by (simpl; lia).
  split; [split; [exact H1|exact H2]|].
  destruct (KBMOSearchMore.get_results_pages sorted_results 1 H1 H2)
    as (p1 & p2 & Ha & Hb & _ & Hc).
  exists p1, p2. split; [exact Ha|]. split; [exact Hb|exact Hc].
Defined.

(** A start beyond the end of a list of three: the call throws. *)
Lemma get_results_stays_inside_witness :
  (in_int 5 = true /\ in_int 1 = true /\ in_int (5 + 1) = true
   /\ Z.of_nat (length sorted_results) <= INT_MAX)
  /\ (KBMOSearch.get_results sorted_results 5 1
      = Throws KBMOSearch.start_error
      \/ KBMOSearch.get_results sorted_results 5 1
         = Throws KBMOSearch.max_size_error
      \/ exists before page after,
           KBMOSearch.get_results sorted_results 5 1 = Returns page
           /\ sorted_results = before ++ page ++ after
           /\ Z.of_nat (length before) = 5).
Proof.
  assert (Z.of_nat (length sorted_results) <= INT_MAX) as H
    by (unfold INT_MAX; simpl; lia).
  split; [split; [reflexivity|split; [reflexivity|split; [reflexivity|exact H]]]|].
  exact (KBMOSearchMore.get_results_stays_inside sorted_results 5 1
           eq_refl eq_refl eq_refl H).
Defined.

(** A trajectory that leaves the image: the second sample is taken at
    x = 12 of an image 12 pixels wide, where [get_pixel] gives [NO_DATA],
    and the light curve holds 0 there. *)
Lemma createCurves_replaces_NO_DATA_witness :
  KBMOSearch.createCurves two_epochs leaving_right [ramp; ramp]
  = Returns [11%Q; 0%Q]
  /\ KBMOSearch.curve_pixel two_epochs leaving_right 1 = (12, 10)
  /\ (KBMOSearch.get_pixel ramp 12 10 == NO_DATA)%Q
  /\ nth 1 [11%Q; 0%Q] NO_DATA = 0%Q
  /\ nth 0 [11%Q; 0%Q] NO_DATA = KBMOSearch.get_pixel ramp 11 10.
Proof.
  assert (KBMOSearch.createCurves two_epochs leaving_right [ramp; ramp]
          = Returns [11%Q; 0%Q]) as Hrun by (vm_compute; reflexivity).
  split; [exact Hrun|]. split; [vm_compute; reflexivity|].
  split; [vm_compute; reflexivity|].
  destruct (KBMOSearchMore.createCurves_replaces_NO_DATA two_epochs
              leaving_right [ramp; ramp] [11%Q; 0%Q] Hrun) as [_ Hsamples].
  split.
  - destruct (Hsamples 1%nat ltac:(simpl; lia)) as [Hsentinel _].
    apply Hsentinel. vm_compute. reflexivity.
  - destruct (Hsamples 0%nat ltac:(simpl; lia)) as (_ & Hvalue & _).
    rewrite Hvalue; [vm_compute; reflexivity|].
    intros H. vm_compute in H. discriminate H.
Defined.

(** A trajectory that moves to the right. *)
Lemma curve_pixel_forward_witness :
  (KBMOSearch.use_corr two_epochs = false
   /\ in_short (Trajectory.x moving_right) = true
   /\ in_short (Trajectory.y moving_right) = true
   /\ (- KBMOSearch.half
       <= nth 1 (KBMOSearch.times two_epochs) 0 * Trajectory.vx moving_right)%Q
   /\ (nth 1 (KBMOSearch.times two_epochs) 0 * Trajectory.vx moving_right
       <= inject_Z KBMOSearch.max_displacement)%Q
   /\ (- KBMOSearch.half
       <= nth 1 (KBMOSearch.times two_epochs) 0 * Trajectory.vy moving_right)%Q
   /\ (nth 1 (KBMOSearch.times two_epochs) 0 * Trajectory.vy moving_right
       <= inject_Z KBMOSearch.max_displacement)%Q)
  /\ KBMOSearch.curve_pixel two_epochs moving_right 1
     = KBMOSearch.predicted_pixel moving_right
         (nth 1 (KBMOSearch.times two_epochs) 0%Q)
  /\ KBMOSearch.curve_pixel two_epochs moving_right 1 = (4, 4).
Proof.
  assert (- KBMOSearch.half
          <= nth 1 (KBMOSearch.times two_epochs) 0 * Trajectory.vx moving_right)%Q
    as Hx by (unfold Qle; vm_compute; intros H; discriminate H).
  assert (nth 1 (KBMOSearch.times two_epochs) 0 * Trajectory.vx moving_right
          <= inject_Z KBMOSearch.max_displacement)%Q
    as Hx' by (unfold Qle; vm_compute; intros H; discriminate H).
  assert (- KBMOSearch.half
          <= nth 1 (KBMOSearch.times two_epochs) 0 * Trajectory.vy moving_right)%Q
    as Hy by (unfold Qle; vm_compute; intros H; discriminate H).
  assert (nth 1 (KBMOSearch.times two_epochs) 0 * Trajectory.vy moving_right
          <= inject_Z KBMOSearch.max_displacement)%Q
    as Hy' by (unfold Qle; vm_compute; intros H; discriminate H).
  split; [repeat (split; [first [reflexivity|assumption]|]); assumption|].
  destruct (KBMOSearchFacts.curve_pixel_forward two_epochs moving_right 1
              eq_refl eq_refl eq_refl Hx Hx' Hy Hy') as [Hpix _].
  split; [exact Hpix|]. vm_compute. reflexivity.
Defined.

Lemma psi_pair_of_size : KBMOSearch.all_of_size 4 psi_pair.
Proof. repeat constructor. Defined.

Lemma phi_pair_of_size : KBMOSearch.all_of_size 4 phi_pair.
Proof. repeat constructor. Defined.

(** Two psi and two phi images of four pixels. *)
Lemma fillPsiAndphi_vects_layout_witness :
  (psi_pair <> [] /\ length phi_pair = length psi_pair
   /\ KBMOSearch.all_of_size 4 psi_pair /\ KBMOSearch.all_of_size 4 phi_pair)
  /\ exists psi_vect phi_vect,
       KBMOSearch.fillPsiAndphi_vects psi_pair phi_pair
       = Some (Returns (psi_vect, phi_vect))
       /\ length psi_vect = 8%nat
       /\ nth (1 * 4 + 2) psi_vect NO_DATA = 7%Q.
Proof.
  split.
  { split; [discriminate|]. split; [reflexivity|].
    split; [exact psi_pair_of_size|exact phi_pair_of_size]. }
  destruct (KBMOSearchMore.fillPsiAndphi_vects_layout 4 psi_pair phi_pair
              ltac:(discriminate) eq_refl psi_pair_of_size phi_pair_of_size)
    as (psi_vect & phi_vect & Hret & Hlen & _ & Hnth).
  exists psi_vect, phi_vect. split; [exact Hret|]. split; [exact Hlen|].
  destruct (Hnth 1%nat 2%nat) as [Hpsi _];
    [change (length psi_pair) with 2%nat; lia|lia|].
  exact Hpsi.
Defined.

Section WithSpecImages.
Existing Instance SpecImages.lib.
Import StampCreator.

(** The mean coadd of one image, without filtering. *)
Lemma coadded_stamps_are_single_stamps_witness :
  (do_filtering mean_params = false
   /\ get_coadded_stamps_cpu one_image [at_centre] [[]] mean_params
      = Returns [bright_5x5]
   /\ nth_error [bright_5x5] 0 = Some bright_5x5)
  /\ exists trj use_index,
       nth_error [at_centre] 0 = Some trj
       /\ nth_error [@nil bool] 0 = Some use_index
       /\ get_mean_stamp one_image trj (radius mean_params) use_index
          = Returns bright_5x5.
Proof.
  assert (get_coadded_stamps_cpu one_image [at_centre] [[]] mean_params
          = Returns [bright_5x5]) as Hrun by (vm_compute; reflexivity).
  split; [split; [reflexivity|split; [exact Hrun|reflexivity]]|].
  destruct (StampCreatorMore.coadded_stamps_are_single_stamps
              one_image [at_centre] [[]] mean_params [bright_5x5] 0
              bright_5x5 eq_refl Hrun eq_refl)
    as (trj & use_index & H1 & H2 & Hmean & _).
  exists trj, use_index. split; [exact H1|]. split; [exact H2|].
  apply Hmean. reflexivity.
Defined.

(** One trajectory with an empty [use_index], mean coadds, no filtering. *)
Lemma get_coadded_stamps_cpu_one_per_trajectory_witness :
  (length [@nil bool] = length [at_centre]
   /\ Forall (fun u : list bool =>
                u = [] \/ length u = ImageStack.img_count one_image)
             [[]]
   /\ (forall v, stamp_type mean_params <> STAMP_other v)
   /\ do_filtering mean_params = false)
  /\ exists results,
       get_coadded_stamps_cpu one_image [at_centre] [[]] mean_params
       = Returns results
       /\ length results = length [at_centre].
Proof.
  assert (Forall (fun u : list bool =>
                    u = [] \/ length u = ImageStack.img_count one_image)
                 [[]]) as Hsizes by (constructor; [now left|constructor]).
  assert (forall v, stamp_type mean_params <> STAMP_other v) as Htype
    by (intros v H; discriminate H).
  split; [split; [reflexivity|split; [exact Hsizes|split;
            [exact Htype|reflexivity]]]|].
  destruct (StampCreatorMore.get_coadded_stamps_cpu_one_per_trajectory
              one_image [at_centre] [[]] mean_params) as (_ & _ & Hret).
  exact (Hret eq_refl Hsizes Htype eq_refl).
Defined.

(** An allowed peak offset of 0. *)
Lemma zero_peak_offset_rejects_all_witness :
  ((peak_offset_x (sum_params 0) <= 0)%Q
   \/ (peak_offset_y (sum_params 0) <= 0)%Q)
  /\ filter_stamp bright_5x5 (sum_params 0) = Returns true
  /\ get_coadded_stamps_cpu one_image [at_centre; at_centre] [[]; [true]]
       (sum_params 0)
     = Returns (repeat (mkRawImage 1 1 [NO_DATA]) 2).
Proof.
  assert ((peak_offset_x (sum_params 0) <= 0)%Q
          \/ (peak_offset_y (sum_params 0) <= 0)%Q) as Hoff
    by (left; unfold Qle; simpl; lia).
  split; [exact Hoff|].
  destruct (StampCreatorMore.zero_peak_offset_rejects_all
              one_image [at_centre; at_centre] [[]; [true]] (sum_params 0)
              Hoff) as [Hrej Hall].
  split; [apply Hrej|].
  assert (exists results,
            get_coadded_stamps_cpu one_image [at_centre; at_centre]
              [[]; [true]] (sum_params 0) = Returns results) as [results Hres]
    by (eexists; vm_compute; reflexivity).
  rewrite Hres. f_equal. apply (Hall eq_refl results Hres).
Defined.

End WithSpecImages.

(** Entry 1 of a list of two held by the host. *)
Lemma set_then_get_witness :
  (TrajectoryList.data_on_gpu on_cpu_list = false
   /\ 0 <= 1 <= TrajectoryList.max_size on_cpu_list
   /\ 1 < Z.of_nat (length (TrajectoryList.cpu_list on_cpu_list)))
  /\ exists l',
       TrajectoryList.set_trajectory on_cpu_list 1 best = (Returns tt, l')
       /\ TrajectoryList.get_trajectory l' 1 = (Returns best, l').
Proof.
  assert (0 <= 1 <= TrajectoryList.max_size on_cpu_list) as H1
    by (simpl; lia).
  assert (1 < Z.of_nat (length (TrajectoryList.cpu_list on_cpu_list))) as H2
    by (simpl; lia).
  split; [split; [reflexivity|split; [exact H1|exact H2]]|].
  destruct (TrajectoryListMore.set_then_get on_cpu_list 1 best eq_refl H1 H2)
    as (l' & Hset & Hget & _).
  exists l'. split; [exact Hset|exact Hget].
Defined.

End MoreExamples.
